(** * gobm65: a shallow embedding of the Beurer BM65 reader

    The development follows the latest revision of the program
    (package [main], the file with [WHOClass]): the measurement record,
    the chronological merge [mergeItems], the serial protocol client
    [getData] / [fetchData], the statistics functions, the WHO
    classification and the filters applied by [main].

    Go's [int] is modelled by [Z]; where the program computes with
    machine integers the 64-bit wrap-around is written out ([wrap64]).
    Bytes are [Byte.byte].  Errors are the message strings the program
    builds with [fmt.Errorf] (or receives from the serial library). *)

From Stdlib Require Import Ascii String.
From Stdlib.Strings Require Import Byte.
From Stdlib Require Import ZArith QArith Qabs List Bool Lia Permutation Sorted.
From Stdlib Require Floats.
Import ListNotations.
Local Open Scope Z_scope.

(* ================================================================== *)
(** ** Data model *)
(* ================================================================== *)

(** [type measurement struct], nine [int] fields. *)
Record measurement : Type := mkMeasurement {
  Header    : Z;
  Systolic  : Z;
  Diastolic : Z;
  Pulse     : Z;
  Month     : Z;
  Day       : Z;
  Hour      : Z;
  Minute    : Z;
  Year      : Z
}.

(** [type simpleTime struct { hour, minute int }] *)
Record simpleTime : Type := mkSimpleTime {
  hour   : Z;
  minute : Z
}.

(** The zero value of a struct variable ([var m measurement]). *)
Definition zeroMeasurement : measurement :=
  mkMeasurement 0 0 0 0 0 0 0 0 0.

(** Go's [==] on two measurement values: all nine fields agree. *)
Definition measurement_eqb (a b : measurement) : bool :=
  (Header a =? Header b) && (Systolic a =? Systolic b) &&
  (Diastolic a =? Diastolic b) && (Pulse a =? Pulse b) &&
  (Month a =? Month b) && (Day a =? Day b) &&
  (Hour a =? Hour b) && (Minute a =? Minute b) &&
  (Year a =? Year b).

Definition measurement_eq_dec (a b : measurement) : {a = b} + {a <> b}.
Proof. repeat decide equality. Defined.

(** Two's-complement wrap-around of a 64-bit [int]. *)
Definition wrap64 (z : Z) : Z :=
  (z + 2 ^ 63) mod 2 ^ 64 - 2 ^ 63.

(* ================================================================== *)
(** ** Merge / dedup engine ([mergeItems]) *)
(* ================================================================== *)

(** The closure [isLater] of [mergeItems]: a [switch] whose cases are
    tried top to bottom. *)
Definition isLater (mi mj : measurement) : bool :=
  if Year mi <? Year mj then false
  else if Year mi >? Year mj then true
  else if Month mi <? Month mj then false
  else if Month mi >? Month mj then true
  else if Day mi <? Day mj then false
  else if Day mi >? Day mj then true
  else if Hour mi <? Hour mj then false
  else if Hour mi >? Hour mj then true
  else if Minute mi <? Minute mj then false
  else true.

(** The loop of the closure [insertIfMissing].  [k] is the index of the
    head of the part of [l] still to visit; [i] and [later] are the
    current values of the two variables declared before the loop.  The
    loop either returns from the closure (a duplicate was met), or ends
    (by [break] or by exhausting the slice) with final values of
    [later] and [i]. *)
Inductive scanResult : Type :=
| Duplicate
| Stop (later : bool) (i : nat).

Fixpoint scanLoop (m : measurement) (rest : list measurement)
         (k i : nat) (later : bool) : scanResult :=
  match rest with
  | [] => Stop later i
  | x :: rest' =>
      let later' := isLater x m in
      if negb later' then Stop later' k
      else if measurement_eqb x m then Duplicate
      else scanLoop m rest' (S k) k later'
  end.

(** [insertIfMissing]: after the loop, append when [later] holds, else
    splice [m] in at index [i]. *)
Definition insertIfMissing (l : list measurement) (m : measurement)
  : list measurement :=
  match scanLoop m l 0 0 false with
  | Duplicate => l
  | Stop true _ => l ++ [m]
  | Stop false i => firstn i l ++ ([m] ++ skipn i l)
  end.

(** [sort.Slice] belongs to Go's standard library, not to this
    program.  [mergeItems] takes it as a parameter: the first argument
    is the [less] closure (which compares the elements currently at two
    indices), the second the slice, the result the slice after the
    call. *)
Definition sorter : Type :=
  (measurement -> measurement -> bool) -> list measurement -> list measurement.

Definition mergeItems (sortSlice : sorter)
           (newItems oldItems : list measurement) : list measurement :=
  let oldItems := sortSlice isLater oldItems in
  let newItems := sortSlice isLater newItems in
  let result := fold_left insertIfMissing newItems [] in
  fold_left insertIfMissing oldItems result.

(** What every release of Go since 1.8 runs inside [sort.Slice] on a
    slice of at most six elements (at most twelve since Go 1.19), the
    library's insertion sort:
<<
    for i := a + 1; i < b; i++ {
        for j := i; j > a && less(j, j-1); j-- { swap(j, j-1) }
    }
>>
    [sink] is the inner loop: the sorted prefix is held in reverse, so
    that its head is the element at index [j-1]. *)
Fixpoint sink (less : measurement -> measurement -> bool)
         (x : measurement) (rprefix : list measurement) : list measurement :=
  match rprefix with
  | [] => [x]
  | y :: rp => if less x y then y :: sink less x rp else x :: y :: rp
  end.

Definition insertionSort : sorter :=
  fun less l => rev (fold_left (fun rp x => sink less x rp) l []).

(** The sort key, and the order the closure [isLater] is meant to
    decide: lexicographic "later or equal" on (year, month, day, hour,
    minute). *)
Definition stamp (m : measurement) : list Z :=
  [Year m; Month m; Day m; Hour m; Minute m].

Fixpoint lexGe (a b : list Z) : Prop :=
  match a, b with
  | x :: a', y :: b' => x > y \/ (x = y /\ lexGe a' b')
  | _, _ => True
  end.

(** Descending-chronological order read on adjacent positions. *)
Definition adjacentLater (l : list measurement) : Prop :=
  forall (i : nat) (a b : measurement),
    nth_error l i = Some a -> nth_error l (S i) = Some b ->
    isLater a b = true.

Definition laterR (a b : measurement) : Prop := isLater a b = true.

(** The loop of [insertIfMissing], read structurally. *)
Fixpoint ins (l : list measurement) (m : measurement) : list measurement :=
  match l with
  | [] => [m]
  | x :: l' =>
      if isLater x m
      then if measurement_eqb x m then l else x :: ins l' m
      else m :: l
  end.

Definition finish (l : list measurement) (m : measurement) (r : scanResult)
  : list measurement :=
  match r with
  | Duplicate => l
  | Stop true _ => l ++ [m]
  | Stop false i => firstn i l ++ ([m] ++ skipn i l)
  end.

(** The invariant of the two insertion loops of [mergeItems]. *)
Definition merged (l : list measurement) : Prop :=
  StronglySorted laterR l /\ NoDup l.

(* ================================================================== *)
(** ** WHO classification ([WHOClass], [WHOClassString]) *)
(* ================================================================== *)

(** The [iota] constants of the classification. *)
Definition BPOptimal              : Z := 0.
Definition BPNormal               : Z := 1.
Definition BPHighNormal           : Z := 2.
Definition BPMildHypertension     : Z := 3.
Definition BPModerateHypertension : Z := 4.
Definition BPSevereHypertension   : Z := 5.

Definition IsolatedSystolicHypertension : Z := 1.

Definition WHOPressureClassification : list string :=
  [ "Optimal"; "Normal"; "High-Normal"; "Mild Hypertension";
    "Moderate Hypertension"; "Severe Hypertension" ]%string.

Definition WHOPressureFlag : list string :=
  [ EmptyString; "Isolated Systolic Hypertension"%string ].

Definition WHOClass (m : measurement) : Z * Z :=
  let flag :=
    if (Systolic m >=? 140) && (Diastolic m <? 90)
    then IsolatedSystolicHypertension else 0 in
  if (Systolic m <? 120) && (Diastolic m <? 80) then (BPOptimal, flag)
  else if (Systolic m <? 130) && (Diastolic m <? 85) then (BPNormal, flag)
  else if (Systolic m <? 140) && (Diastolic m <? 90) then (BPHighNormal, flag)
  else if (Systolic m <? 160) && (Diastolic m <? 100)
       then (BPMildHypertension, flag)
  else if (Systolic m <? 180) && (Diastolic m <? 110)
       then (BPModerateHypertension, flag)
  else (BPSevereHypertension, flag).

Definition WHOClassString (m : measurement) : string :=
  let '(class, flag) := WHOClass m in
  let flagStr :=
    if flag =? IsolatedSystolicHypertension
    then (" (" ++ nth (Z.to_nat flag) WHOPressureFlag EmptyString ++ ")")%string
    else EmptyString in
  (nth (Z.to_nat class) WHOPressureClassification EmptyString ++ flagStr)%string.

(** The classification as the specification words it: an ordered table
    of (systolic bound, diastolic bound, category) rows, the first row
    whose two strict bounds hold wins, and a last category for
    "otherwise". *)
Definition whoTable : list (Z * Z * Z) :=
  [ (120,  80, BPOptimal);
    (130,  85, BPNormal);
    (140,  90, BPHighNormal);
    (160, 100, BPMildHypertension);
    (180, 110, BPModerateHypertension) ].

Fixpoint firstMatch (table : list (Z * Z * Z)) (otherwise : Z)
         (sys dia : Z) : Z :=
  match table with
  | [] => otherwise
  | (maxSys, maxDia, category) :: table' =>
      if (sys <? maxSys) && (dia <? maxDia) then category
      else firstMatch table' otherwise sys dia
  end.

(* ================================================================== *)
(** ** Filters applied by [main] *)
(* ================================================================== *)

(** Index of the first element satisfying [p], counting from [i]: the
    shape of the two date loops, each of which cuts the slice at the
    first index that passes a test and then leaves the loop. *)
Fixpoint findIndex {A : Type} (p : A -> bool) (l : list A) (i : nat)
  : option nat :=
  match l with
  | [] => None
  | x :: l' => if p x then Some i else findIndex p l' (S i)
  end.

Section DateFilter.

(** [time.Date(year, month, day, hour, min, 0, 0, time.Local)] is the
    standard library's and depends on the local time zone; it is a
    parameter here.  An instant is a number of seconds on the time
    line; [t.Sub(u)] has the sign of the difference of the two
    instants (it saturates but never changes sign). *)
Variable timeDate : Z -> Z -> Z -> Z -> Z -> Z.

Definition iDate (m : measurement) : Z :=
  timeDate (Year m) (Month m) (Day m) (Hour m) (Minute m).

(** [if iDate.Sub(startDate) < 0 { items = items[0:i]; break }] *)
Definition fromDateLoop (startDate : Z) (items : list measurement)
  : list measurement :=
  match findIndex (fun m => iDate m - startDate <? 0) items 0 with
  | Some i => firstn i items
  | None => items
  end.

(** [if iDate.Sub(endDate) <= 0 { items = items[i:]; break }] *)
Definition toDateLoop (endDate : Z) (items : list measurement)
  : list measurement :=
  match findIndex (fun m => iDate m - endDate <=? 0) items 0 with
  | Some i => skipn i items
  | None => items
  end.

(** The two date blocks of [main]; [None] stands for a zero
    [time.Time] ([IsZero]), which is what [parseDate] returns for an
    option that was not given. *)
Definition dateFilter (startDate endDate : option Z)
           (items : list measurement) : list measurement :=
  let items :=
    match startDate with
    | Some s => fromDateLoop s items
    | None => items
    end in
  match endDate with
  | Some e => toDateLoop e items
  | None => items
  end.

(** Descending-chronological order of the instants. *)
Definition chronoDesc (items : list measurement) : Prop :=
  StronglySorted (fun a b => iDate a >= iDate b) items.

(** [time.Date] orders the records of [items] as [isLater] orders
    their fields.  It need not: [time.Date] normalises fields that are
    out of range (hour 25 is 01:00 of the next day), and a local zone
    can move its clocks. *)
Definition dateKeepsOrder (items : list measurement) : Prop :=
  forall a b : measurement,
    In a items -> In b items -> isLater a b = true -> iDate a >= iDate b.

End DateFilter.

(** [time.Date] when the local zone is UTC, in seconds since
    0001-01-01 00:00:00: the month is normalised into the year, the day
    of the month, the hour and the minute are added as they are.  (The
    64-bit limits of [time.Time] are not modelled.) *)
Definition isLeap (y : Z) : bool :=
  (y mod 4 =? 0) && (negb (y mod 100 =? 0) || (y mod 400 =? 0)).

Definition daysBefore : list Z :=
  [0; 31; 59; 90; 120; 151; 181; 212; 243; 273; 304; 334].

Definition dateUTC (year month day hour min : Z) : Z :=
  let m0 := month - 1 in
  let y := year + m0 / 12 in
  let m := m0 mod 12 in
  let y1 := y - 1 in
  let d := 365 * y1 + y1 / 4 - y1 / 100 + y1 / 400
           + nth (Z.to_nat m) daysBefore 0
           + (if isLeap y && (2 <=? m) then 1 else 0)
           + (day - 1) in
  d * 86400 + hour * 3600 + min * 60.

(** The calendar, to say when the fields of a record are a date and a
    time of day as they are written: the days of a month, the day
    number of the first of January and of the first of a month. *)
Definition daysIn (year month : Z) : Z :=
  if month =? 2 then (if isLeap year then 29 else 28)
  else if (month =? 4) || (month =? 6) || (month =? 9) || (month =? 11)
       then 30 else 31.

Definition yearStart (y : Z) : Z :=
  365 * (y - 1) + (y - 1) / 4 - (y - 1) / 100 + (y - 1) / 400.

Definition monthStart (leap : bool) (month : Z) : Z :=
  nth (Z.to_nat (month - 1)) daysBefore 0
  + (if leap && (3 <=? month) then 1 else 0).

Definition validCalendar (m : measurement) : Prop :=
  1 <= Month m <= 12 /\
  1 <= Day m <= daysIn (Year m) (Month m) /\
  0 <= Hour m <= 23 /\
  0 <= Minute m <= 59.

(** [m.Hour*60+m.Minute] and [t.hour*60+t.minute], in 64-bit [int]. *)
Definition minuteOfDay (h mi : Z) : Z := wrap64 (wrap64 (h * 60) + mi).

(** The closure [compare] of the time-of-day block. *)
Definition compare (m : measurement) (t : simpleTime) : Z :=
  if minuteOfDay (Hour m) (Minute m) <? minuteOfDay (hour t) (minute t)
  then -1
  else if minuteOfDay (Hour m) (Minute m) >? minuteOfDay (hour t) (minute t)
  then 1
  else 0.

(** The loop over [items] of the time-of-day block: [continue] skips
    the record, otherwise it is appended to [newItems]. *)
Fixpoint timeLoop (fromGiven toGiven inv : bool)
         (startTime endTime : simpleTime)
         (items newItems : list measurement) : list measurement :=
  match items with
  | [] => newItems
  | data :: rest =>
      if inv then
        if (compare data startTime =? -1) && (compare data endTime =? 1)
        then timeLoop fromGiven toGiven inv startTime endTime rest newItems
        else timeLoop fromGiven toGiven inv startTime endTime rest
                      (newItems ++ [data])
      else if fromGiven && (compare data startTime =? -1)
      then timeLoop fromGiven toGiven inv startTime endTime rest newItems
      else if toGiven && (compare data endTime =? 1)
      then timeLoop fromGiven toGiven inv startTime endTime rest newItems
      else timeLoop fromGiven toGiven inv startTime endTime rest
                    (newItems ++ [data])
  end.

(** The time-of-day block of [main].  [None] stands for an empty
    [--from-time] / [--to-time] option, in which case [startTime] /
    [endTime] keeps its zero value. *)
Definition timeFilter (fromTime toTime : option simpleTime)
           (items : list measurement) : list measurement :=
  let given (o : option simpleTime) :=
    match o with Some _ => true | None => false end in
  let value (o : option simpleTime) :=
    match o with Some t => t | None => mkSimpleTime 0 0 end in
  let startTime := value fromTime in
  let endTime := value toTime in
  if given fromTime || given toTime then
    let inv :=
      given fromTime && given toTime &&
      (minuteOfDay (hour startTime) (minute startTime) >?
       minuteOfDay (hour endTime) (minute endTime)) in
    timeLoop (given fromTime) (given toTime) inv startTime endTime items []
  else items.

(** The window of the specification, on a minute of the day [x]. *)
Definition inWindow (fromTime toTime : option Z) (x : Z) : bool :=
  match fromTime, toTime with
  | Some f, Some t =>
      if f <=? t then (f <=? x) && (x <=? t)
      else ((f <=? x) && (x <=? 1439)) || ((0 <=? x) && (x <=? t))
  | Some f, None => f <=? x
  | None, Some t => x <=? t
  | None, None => true
  end.

(** What the loop keeps, whatever the record's hour and minute. *)
Definition kept (fromTime toTime : option Z) (x : Z) : bool :=
  match fromTime, toTime with
  | Some f, Some t =>
      if f <=? t then (f <=? x) && (x <=? t)
      else (f <=? x) || (x <=? t)
  | Some f, None => f <=? x
  | None, Some t => x <=? t
  | None, None => true
  end.

Definition timeOf (t : simpleTime) : Z := minuteOfDay (hour t) (minute t).
Definition timeOfRecord (m : measurement) : Z :=
  minuteOfDay (Hour m) (Minute m).

(** What one pass of the loop decides for a record. *)
Definition passes (fromGiven toGiven inv : bool)
           (startTime endTime : simpleTime) (data : measurement) : bool :=
  if inv
  then negb ((timeOfRecord data <? timeOf startTime) &&
             (timeOf endTime <? timeOfRecord data))
  else negb (fromGiven && (timeOfRecord data <? timeOf startTime)) &&
       negb (toGiven && (timeOf endTime <? timeOfRecord data)).

(* ================================================================== *)
(** ** Statistics ([average], [median], [stdDeviation],
       [avgAbsoluteDeviation]) *)
(* ================================================================== *)

(** What [fmt.Errorf] builds, and what the serial library reports: two
    different kinds of [error] values even when the messages agree. *)
Inductive error : Type :=
| Errorf (msg : string)
| PortError (msg : string).

Definition errEmptySet : error :=
  Errorf "cannot compute average: empty set".
Definition errSetTooSmall : error :=
  Errorf "cannot compute deviation: set too small".

(** Go's [float64] and the operations the program applies to it, as an
    interface: the statistics are written against it, the properties
    below hold for every implementation of it. *)
Class Float64 : Type := {
  float64 : Type;
  ofInt : Z -> float64;                   (* float64(n)   *)
  toInt : float64 -> Z;                   (* int(x)       *)
  fzero : float64;                        (* 0, the zero value *)
  fhalf : float64;                        (* 0.5          *)
  ftwo  : float64;                        (* 2            *)
  fadd  : float64 -> float64 -> float64;  (* x + y        *)
  fdiv  : float64 -> float64 -> float64;  (* x / y        *)
  Pow   : float64 -> float64 -> float64;  (* math.Pow     *)
  Sqrt  : float64 -> float64;             (* math.Sqrt    *)
  Abs   : float64 -> float64              (* math.Abs     *)
}.

(** Assignment to the three value fields of a measurement variable. *)
Definition withValues (m : measurement) (sys dia pul : Z) : measurement :=
  mkMeasurement (Header m) sys dia pul
                (Month m) (Day m) (Hour m) (Minute m) (Year m).

(** [sort.Ints]: ascending order; on integers the sorted slice is
    unique, so any sorting algorithm stands for the library's. *)
Fixpoint insertInt (x : Z) (l : list Z) : list Z :=
  match l with
  | [] => [x]
  | y :: l' => if x <=? y then x :: l else y :: insertInt x l'
  end.

Definition sortInts (l : list Z) : list Z :=
  fold_right insertInt [] l.

(** [numbers[i]] on a slice of [int]; the program never indexes out of
    range on the paths modelled here. *)
Definition at_ (numbers : list Z) (i : Z) : Z :=
  nth (Z.to_nat i) numbers 0.

Definition intMedian (numbers : list Z) : Z :=
  let len := Z.of_nat (length numbers) in
  let middle := Z.quot len 2 in
  let med := at_ numbers middle in
  if Z.rem len 2 =? 0
  then Z.quot (wrap64 (med + at_ numbers (middle - 1))) 2
  else med.

Definition median (items : list measurement) : measurement * option error :=
  let med := zeroMeasurement in
  if (Z.of_nat (length items) =? 0)
  then (med, Some errEmptySet)
  else
    let sys := map Systolic items in
    let dia := map Diastolic items in
    let pul := map Pulse items in
    let sys := sortInts sys in
    let dia := sortInts dia in
    let pul := sortInts pul in
    (withValues med (intMedian sys) (intMedian dia) (intMedian pul), None).

Section Statistics.

Context {F : Float64}.

(** The closure [roundDivision] of [average]. *)
Definition roundDivision (a b : Z) : Z :=
  toInt (fadd fhalf (fdiv (ofInt a) (ofInt b))).

(** One turn of the summing loop of [average]. *)
Definition averageStep (acc : measurement * Z) (data : measurement)
  : measurement * Z :=
  let (avgMeasure, avgCount) := acc in
  (withValues avgMeasure
              (wrap64 (Systolic avgMeasure + Systolic data))
              (wrap64 (Diastolic avgMeasure + Diastolic data))
              (wrap64 (Pulse avgMeasure + Pulse data)),
   avgCount + 1).

Definition average (items : list measurement) : measurement * option error :=
  let (avgMeasure, avgCount) :=
    fold_left averageStep items (zeroMeasurement, 0) in
  if avgCount =? 0
  then (avgMeasure, Some errEmptySet)
  else (withValues avgMeasure
                   (roundDivision (Systolic avgMeasure) avgCount)
                   (roundDivision (Diastolic avgMeasure) avgCount)
                   (roundDivision (Pulse avgMeasure) avgCount),
        None).

(** The three running sums of a deviation loop; [term] is what one
    record adds for one field, given the record's value and the
    average's. *)
Definition deviationSums (term : Z -> Z -> float64) (avg : measurement)
           (items : list measurement) : float64 * float64 * float64 :=
  fold_left
    (fun (sums : float64 * float64 * float64) (data : measurement) =>
       let '(sumSys, sumDia, sumPul) := sums in
       (fadd sumSys (term (Systolic data) (Systolic avg)),
        fadd sumDia (term (Diastolic data) (Diastolic avg)),
        fadd sumPul (term (Pulse data) (Pulse avg))))
    items (fzero, fzero, fzero).

Definition stdDeviation (items : list measurement)
  : measurement * option error :=
  let sDev := zeroMeasurement in
  if (Z.of_nat (length items) <=? 1)
  then (sDev, Some errSetTooSmall)
  else
    match average items with
    | (_, Some err) => (sDev, Some err)
    | (avg, None) =>
        let '(sumSys, sumDia, sumPul) :=
          deviationSums (fun x a => Pow (ofInt (wrap64 (x - a))) ftwo)
                        avg items in
        let n := ofInt (Z.of_nat (length items)) in
        (withValues sDev
                    (toInt (Sqrt (fdiv sumSys n)))
                    (toInt (Sqrt (fdiv sumDia n)))
                    (toInt (Sqrt (fdiv sumPul n))),
         None)
    end.

Definition avgAbsoluteDeviation (items : list measurement)
  : measurement * option error :=
  let dev := zeroMeasurement in
  if (Z.of_nat (length items) <=? 1)
  then (dev, Some errSetTooSmall)
  else
    match average items with
    | (_, Some err) => (dev, Some err)
    | (avg, None) =>
        let '(sumSys, sumDia, sumPul) :=
          deviationSums (fun x a => Abs (ofInt (wrap64 (x - a))))
                        avg items in
        let n := ofInt (Z.of_nat (length items)) in
        (withValues dev
                    (toInt (fdiv sumSys n))
                    (toInt (fdiv sumDia n))
                    (toInt (fdiv sumPul n)),
         None)
    end.

End Statistics.

(** An implementation of the interface in exact rational arithmetic,
    to run the statistics on examples: [int(x)] truncates toward zero;
    [Sqrt] returns the integer part of the root, which is all the
    program keeps of it. *)
Definition exactFloat64 : Float64 := {|
  float64 := Q;
  ofInt := inject_Z;
  toInt := fun x => Z.quot (Qnum x) (Z.pos (Qden x));
  fzero := 0%Q;
  fhalf := (1 # 2)%Q;
  ftwo  := 2%Q;
  fadd  := Qplus;
  fdiv  := Qdiv;
  Pow   := fun x y => Qpower x (Z.quot (Qnum y) (Z.pos (Qden y)));
  Sqrt  := fun x => inject_Z (Z.sqrt (Z.quot (Qnum x) (Z.pos (Qden x))));
  Abs   := Qabs
|}.

(* ================================================================== *)
(** ** Device protocol client ([getData], [fetchData]) *)
(* ================================================================== *)

(** The serial port as the program sees it.  Every call of [Read] on
    the port has one of two results: some bytes (possibly none), or an
    error; [incoming] lists the results of the successive calls, and a
    call that finds the list empty blocks for ever.  [writeError k] is
    the result of the [k]-th call of [Write] (counted from 0); [sent]
    collects the requests written with success. *)
Inductive readEvent : Type :=
| RData (bs : list byte)
| RErr (msg : string).

Record port : Type := mkPort {
  openError  : option string;
  incoming   : list readEvent;
  writeError : nat -> option string;
  writes     : nat;
  sent       : list (list byte);
  closed     : bool
}.

(** A call either returns to its caller, or ends the process
    ([log.Fatal]), or never returns. *)
Inductive outcome (A : Type) : Type :=
| Done (a : A) (s : port)
| Exit (e : error)
| Blocked.

Arguments Done {A} a s.
Arguments Exit {A} e.
Arguments Blocked {A}.

Definition io (A : Type) : Type := port -> outcome A.

Definition ret {A : Type} (a : A) : io A := fun s => Done a s.

Definition bind {A B : Type} (c : io A) (k : A -> io B) : io B :=
  fun s =>
    match c s with
    | Done a s' => k a s'
    | Exit e => Exit e
    | Blocked => Blocked
    end.

Notation "x <- c ;; k" := (bind c (fun x => k))
  (at level 61, c at next level, right associativity).
Notation "' p <- c ;; k" := (bind c (fun x => let 'p := x in k))
  (at level 61, p pattern, c at next level, right associativity).

(** [serial.OpenPort] *)
Definition OpenPort : io (option error) :=
  fun s => Done (option_map PortError (openError s)) s.

(** [s.Write(q)]; the byte count it returns is never looked at. *)
Definition Write (q : list byte) : io (option error) :=
  fun s =>
    match writeError s (writes s) with
    | Some msg =>
        Done (Some (PortError msg))
             (mkPort (openError s) (incoming s) (writeError s)
                     (S (writes s)) (sent s) (closed s))
    | None =>
        Done None
             (mkPort (openError s) (incoming s) (writeError s)
                     (S (writes s)) (sent s ++ [q]) (closed s))
    end.

(** [s.Close()] *)
Definition Close : io unit :=
  fun s =>
    Done tt (mkPort (openError s) (incoming s) (writeError s)
                    (writes s) (sent s) true).

(** Storing [bs] into the buffer from index [t] on. *)
Definition store (b : list byte) (t : nat) (bs : list byte) : list byte :=
  firstn t b ++ bs ++ skipn (t + length bs) b.

(** The loop of [getData].  A [Read] into [b[t:]] takes at most
    [len(b) - t] bytes.  On a read error the program calls [log.Fatal],
    which ends the process: the [return t, err] under it is never
    reached. *)
Fixpoint getDataLoop (s : port) (evs : list readEvent)
         (size t : Z) (b : list byte) {struct evs}
  : outcome (Z * option error * list byte) :=
  if t <? size then
    match evs with
    | [] => Blocked
    | RErr msg :: _ => Exit (PortError msg)
    | RData bs :: evs' =>
        let got := firstn (length b - Z.to_nat t) bs in
        let n := Z.of_nat (length got) in
        getDataLoop s evs' size (t + n) (store b (Z.to_nat t) got)
    end
  else
    Done (t, None, b)
         (mkPort (openError s) evs (writeError s)
                 (writes s) (sent s) (closed s)).

(** [getData(s, buf, size)]; the buffer is written in place, so its new
    contents are returned with the results. *)
Definition getData (buf : list byte) (size : Z)
  : io (Z * option error * list byte) :=
  fun s => getDataLoop s (incoming s) size 0 buf.

Definition errHandshake : error := Errorf "handshake failed".
Definition errNoMeasurement : error := Errorf "no measurement found".

(** [int(buf[i])] *)
Definition byteAt (buf : list byte) (i : nat) : Z :=
  Z.of_N (Byte.to_N (nth i buf x00)).

(** [uint8(z)] *)
Definition uint8 (z : Z) : byte :=
  match Byte.of_N (Z.to_N (z mod 256)) with
  | Some b => b
  | None => x00
  end.

(** The nine assignments that fill [data] from the buffer. *)
Definition decode (buf : list byte) : measurement :=
  mkMeasurement (byteAt buf 0)
                (byteAt buf 1 + 25)
                (byteAt buf 2 + 25)
                (byteAt buf 3)
                (byteAt buf 4)
                (byteAt buf 5)
                (byteAt buf 6)
                (byteAt buf 7)
                (byteAt buf 8 + 2000).

(** The record loop [for i := 0; i < nRecords; i++]; [todo] counts the
    turns left.  The error of the [getData] of a turn is not looked
    at. *)
Fixpoint recordsLoop (todo : nat) (i : Z) (items : list measurement)
         (buf : list byte) : io (list measurement * option error) :=
  match todo with
  | O => ret (items, None)
  | S todo' =>
      err <- Write [xa3; uint8 (i + 1)] ;;
      match err with
      | Some e => ret (items, Some e)
      | None =>
          '(_, _, buf) <- getData buf 9 ;;
          recordsLoop todo' (i + 1) (items ++ [decode buf]) buf
      end
  end.

Definition fetchData (sortSlice : sorter)
  : io (list measurement * option error) :=
  let items : list measurement := [] in
  err <- OpenPort ;;
  match err with
  | Some e => ret (items, Some e)
  | None =>
  (* Handshake *)
  err <- Write [xaa] ;;
  match err with
  | Some e => ret (items, Some e)
  | None =>
  let buf := repeat x00 128 in
  '(n, err, buf) <- getData buf 1 ;;
  match err with
  | Some e => ret (items, Some e)
  | None =>
  if (n =? 1) && Byte.eqb (nth 0 buf x00) x55 then
    (* Desc *)
    err <- Write [xa4] ;;
    match err with
    | Some e => ret (items, Some e)
    | None =>
    '(_, _, buf) <- getData buf 32 ;;
    (* Count *)
    err <- Write [xa2] ;;
    match err with
    | Some e => ret (items, Some e)
    | None =>
    '(n, err, buf) <- getData buf 1 ;;
    match err with
    | Some e => ret (items, Some e)
    | None =>
    if n =? 1 then
      let nRecords := byteAt buf 0 in
      (* Records *)
      '(items, err) <- recordsLoop (Z.to_nat nRecords) 0 items buf ;;
      match err with
      | Some e => ret (items, Some e)
      | None =>
          _ <- Close ;;
          ret (mergeItems sortSlice items [], None)
      end
    else ret (items, Some errNoMeasurement)
    end end end
  else
    _ <- Close ;;
    ret (items, Some errHandshake)
  end end end.

(** A response of the device arriving in one or several reads: the
    reads that carry the bytes [bs], none of them empty. *)
Definition arrives (chunks : list (list byte)) (bs : list byte) : Prop :=
  concat chunks = bs /\ Forall (fun c => c <> []) chunks.

(** The requests of the record phase, [(0xa3, i)] for [i] from [from]
    on. *)
Definition recordRequests (from : nat) (n : nat) : list (list byte) :=
  map (fun i => [xa3; uint8 (Z.of_nat i)]) (seq from n).

(** What [fetchData] does with the outcome of the record loop. *)
Definition afterRecords (sortSlice : sorter)
  : list measurement * option error -> io (list measurement * option error) :=
  fun '(items, err) =>
    match err with
    | Some e => ret (items, Some e)
    | None => _ <- Close ;; ret (mergeItems sortSlice items [], None)
    end.

(** A sample session: a device holding two readings (2016-06-01 08:30,
    120/80, pulse 60; 2016-06-02 09:00, 130/85, pulse 70) whose
    description and first response each arrive in two reads. *)
Definition sampleDesc : list byte := repeat x42 32.
Definition sampleDescChunks : list (list byte) :=
  [repeat x42 20; repeat x42 12].

Definition sampleResponse1 : list byte :=
  [x00; x5f; x37; x3c; x06; x01; x08; x1e; x10].
Definition sampleResponse2 : list byte :=
  [x00; x69; x3c; x46; x06; x02; x09; x00; x10].
Definition sampleResponses : list (list byte) :=
  [sampleResponse1; sampleResponse2].
Definition sampleRespChunks : list (list (list byte)) :=
  [[firstn 4 sampleResponse1; skipn 4 sampleResponse1]; [sampleResponse2]].

Definition samplePort (writeError : nat -> option string) : port :=
  mkPort None
         (RData [x55] :: map RData sampleDescChunks ++
          RData [x02] :: concat (map (map RData) sampleRespChunks) ++ [])
         writeError 0 [] false.

Definition allWritesOk : nat -> option string := fun _ => None.

(** The fifth write (the request for the second record) fails. *)
Definition fifthWriteFails : nat -> option string :=
  fun k => if (k =? 4)%nat then Some "input/output error"%string else None.

(** A device that answers the count request with two bytes in one
    read. *)
Definition twoCountBytesPort : port :=
  mkPort None
         [RData [x55]; RData sampleDesc; RData [x02; x00]]
         allWritesOk 0 [] false.

(* ================================================================== *)
(** ** The rest of the program *)
(* ================================================================== *)

(** *** Loading stored collections ([loadFromJSONFiles]) *)

(** [strings.Split(s, ";")]: the pieces of [s] between the semicolons,
    one more than there are semicolons. *)
Fixpoint splitSemicolon (s : string) : list string :=
  match s with
  | EmptyString => [EmptyString]
  | String c s' =>
      if Ascii.eqb c ";"%char then EmptyString :: splitSemicolon s'
      else match splitSemicolon s' with
           | piece :: pieces => String c piece :: pieces
           | [] => [String c EmptyString]
           end
  end.

Section Loading.

Variable sortSlice : sorter.

(** [loadFromJSONFile] reads a file and decodes its JSON: what it
    returns for a name is given by the file system, a parameter here. *)
Variable loadFromJSONFile : string -> list measurement * option error.

(** The loop of [loadFromJSONFiles] over the file names; [items] is the
    named result. *)
Fixpoint loadLoop (filenames : list string) (items : list measurement)
  : list measurement * option error :=
  match filenames with
  | [] => (items, None)
  | f :: rest =>
      if String.eqb f EmptyString then loadLoop rest items
      else
        let (records, err) := loadFromJSONFile f in
        match err with
        | Some e => (items, Some e)
        | None => loadLoop rest (mergeItems sortSlice records items)
        end
  end.

Definition loadFromJSONFiles (files : string)
  : list measurement * option error :=
  loadLoop (splitSemicolon files) [].

(** The records of the files named in [names] (the empty name names no
    file). *)
Definition inSomeFile (names : list string) (x : measurement) : Prop :=
  exists f, In f names /\ f <> EmptyString /\
            In x (fst (loadFromJSONFile f)).

Definition allLoad (names : list string) : Prop :=
  forall f, In f names -> f <> EmptyString ->
            snd (loadFromJSONFile f) = None.

End Loading.

(** *** The limit and the chain of filters of [main] *)

(** [int(u)] for a 64-bit [uint]. *)
Definition intOfUint (u : N) : Z := wrap64 (Z.of_N u).

(** The limit block of [main]: when the limit is positive and
    [len(items)] exceeds [int] of it, the slice is cut to its first
    [limit] elements.  [None] stands for the run-time panic of a slice
    expression whose upper bound exceeds the capacity. *)
Definition limitItems (limit : N) (items : list measurement)
  : option (list measurement) :=
  if (0 <? limit)%N && (Z.of_nat (length items) >? intOfUint limit)
  then if (limit <=? N.of_nat (length items))%N
       then Some (firstn (N.to_nat limit) items)
       else None
  else Some items.

(** Date range, then time of day, then limit, in the order of [main]. *)
Definition filterItems (timeDate : Z -> Z -> Z -> Z -> Z -> Z)
           (startDate endDate : option Z)
           (fromTime toTime : option simpleTime) (limit : N)
           (items : list measurement) : option (list measurement) :=
  limitItems limit
    (timeFilter fromTime toTime
       (dateFilter timeDate startDate endDate items)).

(** *** The grades behind [WHOClass] *)

(** The first systolic (resp. diastolic) bound of the [switch] that a
    value stays under, counted from 0; 5 when it stays under none. *)
Definition sysGrade (sys : Z) : Z :=
  if sys <? 120 then 0 else if sys <? 130 then 1 else if sys <? 140 then 2
  else if sys <? 160 then 3 else if sys <? 180 then 4 else 5.

Definition diaGrade (dia : Z) : Z :=
  if dia <? 80 then 0 else if dia <? 85 then 1 else if dia <? 90 then 2
  else if dia <? 100 then 3 else if dia <? 110 then 4 else 5.

(** *** [displayWHOClassStats] *)

(** [classes[s]++] on a [map[int]int]; reading a key that was never
    written gives 0. *)
Definition increment (classes : Z -> Z) (s : Z) : Z -> Z :=
  fun c => if c =? s then wrap64 (classes c + 1) else classes c.

Definition noClasses : Z -> Z := fun _ => 0.

(** The second loop: one row (label, count, percentage) per entry of
    [WHOPressureClassification]; [n] is [len(items)], not zero. *)
Definition classRows (classes : Z -> Z) (n : Z) : list (string * Z * Z) :=
  map (fun c : nat =>
         (nth c WHOPressureClassification EmptyString,
          classes (Z.of_nat c),
          Z.quot (wrap64 (classes (Z.of_nat c) * 100)) n))
      (seq 0 (length WHOPressureClassification)).

Section ClassStats.

Context {F : Float64}.

(** One turn of the first loop. *)
Definition classStep (acc : float64 * (Z -> Z)) (m : measurement)
  : float64 * (Z -> Z) :=
  let (sum, classes) := acc in
  let (s, flag) := WHOClass m in
  let classes := increment classes s in
  let sum := fadd sum (ofInt s) in
  let sum := if flag =? IsolatedSystolicHypertension
             then fadd sum fhalf else sum in
  (sum, classes).

(** What [displayWHOClassStats] prints: the label and the value of the
    average classification, then the rows.  [None] stands for a
    run-time panic: the index [int(0.5+avg)] out of the range of
    [WHOPressureClassification], or the integer division by
    [len(items)] when it is zero. *)
Definition displayWHOClassStats (items : list measurement)
  : option (string * float64 * list (string * Z * Z)) :=
  let (sum, classes) := fold_left classStep items (fzero, noClasses) in
  let n := Z.of_nat (length items) in
  let avg := fdiv sum (ofInt n) in
  let index := toInt (fadd fhalf avg) in
  if (0 <=? index) && (index <? Z.of_nat (length WHOPressureClassification))
  then
    if n =? 0 then None
    else Some (nth (Z.to_nat index) WHOPressureClassification EmptyString,
               avg, classRows classes n)
  else None.

End ClassStats.

(** How many records of [items] fall in category [c]. *)
Definition countClass (items : list measurement) (c : Z) : Z :=
  Z.of_nat (length (filter (fun m => fst (WHOClass m) =? c) items)).

(** Go's [float64] itself: IEEE 754 binary64 with rounding to nearest
    even, as the primitive floating-point numbers provide it.
    [float64(n)] rounds the integer; [int(x)] drops the fraction (for a
    NaN, an infinity or a value out of the range of [int] Go leaves the
    result to the implementation: here 0, resp. the integer part).
    [math.Pow] is only ever called with the exponent 2. *)
Definition ieeeOfInt (z : Z) : PrimFloat.float :=
  FloatOps.SF2Prim
    (SpecFloat.binary_normalize FloatOps.prec FloatOps.emax z 0 false).

Definition ieeeToInt (x : PrimFloat.float) : Z :=
  match FloatOps.Prim2SF x with
  | SpecFloat.S754_finite negative m e =>
      let magnitude :=
        if 0 <=? e then Z.shiftl (Z.pos m) e else Z.shiftr (Z.pos m) (- e) in
      if negative then - magnitude else magnitude
  | _ => 0
  end.

Definition ieeeFloat64 : Float64 := {|
  float64 := PrimFloat.float;
  ofInt := ieeeOfInt;
  toInt := ieeeToInt;
  fzero := ieeeOfInt 0;
  fhalf := PrimFloat.div (ieeeOfInt 1) (ieeeOfInt 2);
  ftwo  := ieeeOfInt 2;
  fadd  := PrimFloat.add;
  fdiv  := PrimFloat.div;
  Pow   := fun x _ => PrimFloat.mul x x;
  Sqrt  := PrimFloat.sqrt;
  Abs   := PrimFloat.abs
|}.

(** The total of the counts of the rows. *)
Definition rowCounts (rows : list (string * Z * Z)) : Z :=
  fold_right (fun row acc => snd (fst row) + acc) 0 rows.

Definition rowPercents (rows : list (string * Z * Z)) : Z :=
  fold_right (fun row acc => snd row + acc) 0 rows.

(** *** The first [mergeItems] (before the chronological merge) *)

Module Earlier.

(** The loop over [newItems]: every new record is appended; [j] walks
    through [oldItems] as long as the records met are the same. *)
Fixpoint mergeLoop (newItems oldItems result : list measurement) (j : nat)
  : list measurement * nat :=
  match newItems with
  | [] => (result, j)
  | nItem :: rest =>
      let result := result ++ [nItem] in
      if (j + 1 <=? length oldItems)%nat &&
         measurement_eqb nItem (nth j oldItems zeroMeasurement)
      then mergeLoop rest oldItems result (S j)
      else mergeLoop rest oldItems result j
  end.

Definition mergeItems (newItems oldItems : list measurement)
  : list measurement :=
  let (result, j) := mergeLoop newItems oldItems [] 0 in
  if (j + 1 <=? length oldItems)%nat
  then result ++ skipn j oldItems
  else result.

End Earlier.

(** *** Sample data for the statements below *)

Definition reading1 : measurement := mkMeasurement 0 120 80 60 6 1 8 30 2016.
Definition reading2 : measurement := mkMeasurement 0 130 85 70 6 2 9 0 2016.
Definition reading3 : measurement := mkMeasurement 0 185 85 75 6 2 21 15 2016.
(** Another reading of the minute of [reading1]. *)
Definition reading1' : measurement :=
  mkMeasurement 0 124 82 61 6 1 8 30 2016.

(** A file system with two readable files. *)
Definition sampleFiles (name : string) : list measurement * option error :=
  if String.eqb name "u1.json" then ([reading1], None)
  else if String.eqb name "u2.json" then ([reading2; reading1], None)
  else ([], Some (PortError "no such file")).

(** A port whose first answer reports an error. *)
Definition failingPort : port :=
  mkPort None [RErr "device lost"] allWritesOk 0 [] false.

(** *** Auxiliary notions for the statements below *)

(** [a] stands somewhere before [b] in [l]. *)
Definition before (l : list measurement) (a b : measurement) : Prop :=
  exists l1 l2 l3, l = l1 ++ a :: l2 ++ b :: l3.

Inductive precedes : list measurement -> measurement -> measurement -> Prop :=
| precedes_here (a b : measurement) (l : list measurement) :
    In b l -> precedes (a :: l) a b
| precedes_later (x a b : measurement) (l : list measurement) :
    precedes l a b -> precedes (x :: l) a b.

(** Two records of the same minute. *)
Definition tied (a b : measurement) : Prop := stamp a = stamp b.

(** The number of bytes a list of reads delivers at most. *)
Fixpoint delivered (evs : list readEvent) : Z :=
  match evs with
  | [] => 0
  | RData bs :: evs' => Z.of_nat (length bs) + delivered evs'
  | RErr _ :: evs' => delivered evs'
  end.

Definition isData (ev : readEvent) : Prop :=
  match ev with RData _ => True | RErr _ => False end.

(** The values a record decoded from device bytes can take. *)
Definition deviceRange (m : measurement) : Prop :=
  0 <= Header m <= 255 /\
  25 <= Systolic m <= 280 /\ 25 <= Diastolic m <= 280 /\
  0 <= Pulse m <= 255 /\
  0 <= Month m <= 255 /\ 0 <= Day m <= 255 /\
  0 <= Hour m <= 255 /\ 0 <= Minute m <= 255 /\
  2000 <= Year m <= 2255.

(* ================================================================== *)
(** * Properties *)
(* ================================================================== *)

(* ------------------------------------------------------------------ *)
(** *** Facts about equality and [isLater] *)

Lemma measurement_eqb_eq (a b : measurement) :
  measurement_eqb a b = true <-> a = b.
Proof.
  unfold measurement_eqb. split.
  - intros H.
    repeat (apply andb_true_iff in H; destruct H as [H ?]).
    destruct a, b; simpl in *.
    repeat match goal with
           | E : (_ =? _) = true |- _ => apply Z.eqb_eq in E
           end.
    congruence.
  - intros ->. now rewrite !Z.eqb_refl.
Qed.

Lemma measurement_eqb_refl (a : measurement) : measurement_eqb a a = true.
Proof. now apply measurement_eqb_eq. Qed.

Lemma measurement_eqb_neq (a b : measurement) :
  measurement_eqb a b = false <-> a <> b.
Proof.
  rewrite <- measurement_eqb_eq. now destruct (measurement_eqb a b).
Qed.

Ltac zcmp :=
  repeat match goal with
         | |- context [?x <? ?y] => destruct (Z.ltb_spec x y)
         | |- context [?x >? ?y] => rewrite (Z.gtb_ltb x y)
         | H : context [?x <? ?y] |- _ => destruct (Z.ltb_spec x y)
         | H : context [?x >? ?y] |- _ => rewrite (Z.gtb_ltb x y) in H
         end.

Lemma isLater_lexGe (a b : measurement) :
  isLater a b = true <-> lexGe (stamp a) (stamp b).
Proof.
  unfold isLater, stamp; simpl.
  zcmp; split; intros; try discriminate; try reflexivity; try lia.
Qed.

Lemma isLater_refl (a : measurement) : isLater a a = true.
Proof. unfold isLater. zcmp; try reflexivity; lia. Qed.

Lemma isLater_total (a b : measurement) :
  isLater a b = false -> isLater b a = true.
Proof. unfold isLater. zcmp; intros; try discriminate; try reflexivity; lia. Qed.

Lemma isLater_trans (a b c : measurement) :
  isLater a b = true -> isLater b c = true -> isLater a c = true.
Proof.
  rewrite !isLater_lexGe. unfold stamp; simpl. lia.
Qed.


(* ------------------------------------------------------------------ *)
(** *** [insertIfMissing] as a recursive insertion *)

Lemma scanLoop_ins (m : measurement) (rest p : list measurement) (i : nat) :
  finish (p ++ rest) m (scanLoop m rest (length p) i true) = p ++ ins rest m.
Proof.
  revert p i. induction rest as [|x rest IH]; intros p i; simpl.
  - now rewrite app_nil_r.
  - destruct (isLater x m) eqn:L; simpl.
    + destruct (measurement_eqb x m) eqn:E; simpl; [reflexivity|].
      specialize (IH (p ++ [x]) (length p)).
      rewrite length_app, Nat.add_comm in IH; simpl in IH.
      rewrite <- !app_assoc in IH. exact IH.
    + rewrite firstn_app, skipn_app, Nat.sub_diag, firstn_all, skipn_all.
      simpl. now rewrite app_nil_r.
Qed.

Lemma insertIfMissing_ins (l : list measurement) (m : measurement) :
  insertIfMissing l m = ins l m.
Proof.
  unfold insertIfMissing. destruct l as [|x l]; [reflexivity|].
  cbn [scanLoop ins].
  destruct (isLater x m) eqn:L; cbn [negb]; [|reflexivity].
  destruct (measurement_eqb x m) eqn:E; [reflexivity|].
  exact (scanLoop_ins m l [x] 0%nat).
Qed.

Lemma ins_In (l : list measurement) (m y : measurement) :
  In y (ins l m) -> y = m \/ In y l.
Proof.
  induction l as [|x l IH]; simpl.
  - intros [<-|[]]. now left.
  - destruct (isLater x m); [destruct (measurement_eqb x m)|]; simpl.
    + tauto.
    + intros [->|H]; [tauto|]. apply IH in H. tauto.
    + intros [<-|H]; tauto.
Qed.

Lemma ins_keeps (l : list measurement) (m y : measurement) :
  In y l -> In y (ins l m).
Proof.
  induction l as [|x l IH]; simpl; [tauto|].
  destruct (isLater x m); [destruct (measurement_eqb x m)|]; simpl; tauto.
Qed.

Lemma ins_adds (l : list measurement) (m : measurement) : In m (ins l m).
Proof.
  induction l as [|x l IH]; simpl; [tauto|].
  destruct (isLater x m); [destruct (measurement_eqb x m) eqn:E|]; simpl.
  - apply measurement_eqb_eq in E. tauto.
  - tauto.
  - tauto.
Qed.

Lemma ins_sorted (l : list measurement) (m : measurement) :
  StronglySorted laterR l -> StronglySorted laterR (ins l m).
Proof.
  induction 1 as [|x l Hs IH Hx]; simpl.
  - repeat constructor.
  - destruct (isLater x m) eqn:L; [destruct (measurement_eqb x m)|].
    + now constructor.
    + constructor; [exact IH|].
      apply Forall_forall. intros y Hy. apply ins_In in Hy as [->|Hy].
      * exact L.
      * rewrite Forall_forall in Hx. now apply Hx.
    + apply isLater_total in L.
      constructor; [now constructor|].
      constructor; [exact L|].
      eapply Forall_impl; [|exact Hx].
      intros y Hy. eapply isLater_trans; eassumption.
Qed.

(** In a sorted list the loop meets every record equal to [m] before it
    can break: a record already present is never inserted again. *)
Lemma ins_present (l : list measurement) (m : measurement) :
  StronglySorted laterR l -> In m l -> ins l m = l.
Proof.
  induction 1 as [|x l Hs IH Hx]; simpl; [tauto|].
  intros [->|Hin].
  - now rewrite isLater_refl, measurement_eqb_refl.
  - rewrite Forall_forall in Hx. rewrite (Hx _ Hin).
    destruct (measurement_eqb x m); [reflexivity|].
    now rewrite IH.
Qed.

Lemma ins_absent_NoDup (l : list measurement) (m : measurement) :
  ~ In m l -> NoDup l -> NoDup (ins l m).
Proof.
  induction l as [|x l IH]; simpl; intros Hm Hn.
  - repeat constructor. tauto.
  - destruct (isLater x m); [destruct (measurement_eqb x m)|].
    + exact Hn.
    + inversion Hn as [|? ? Hx Hl]; subst.
      constructor; [|apply IH; tauto].
      intros H. apply ins_In in H as [->|H]; tauto.
    + constructor; [simpl; tauto | exact Hn].
Qed.

Lemma ins_NoDup (l : list measurement) (m : measurement) :
  StronglySorted laterR l -> NoDup l -> NoDup (ins l m).
Proof.
  intros Hs Hn. destruct (in_dec measurement_eq_dec m l) as [Hin|Hout].
  - now rewrite ins_present.
  - now apply ins_absent_NoDup.
Qed.

Lemma merged_nil : merged [].
Proof. split; constructor. Qed.

Lemma fold_insert_merged (xs acc : list measurement) :
  merged acc -> merged (fold_left insertIfMissing xs acc).
Proof.
  revert acc. induction xs as [|x xs IH]; intros acc [Hs Hn]; simpl.
  - now split.
  - apply IH. rewrite insertIfMissing_ins. split.
    + now apply ins_sorted.
    + now apply ins_NoDup.
Qed.

Lemma fold_insert_In (xs acc : list measurement) (y : measurement) :
  In y (fold_left insertIfMissing xs acc) <-> In y xs \/ In y acc.
Proof.
  revert acc. induction xs as [|x xs IH]; intros acc; simpl.
  - tauto.
  - rewrite IH, insertIfMissing_ins. split.
    + intros [H|H]; [tauto|]. apply ins_In in H as [->|H]; tauto.
    + intros [[<-|H]|H].
      * right. apply ins_adds.
      * tauto.
      * right. now apply ins_keeps.
Qed.

Lemma mergeItems_merged (sortSlice : sorter) (newItems oldItems : list measurement) :
  merged (mergeItems sortSlice newItems oldItems).
Proof.
  unfold mergeItems. apply fold_insert_merged, fold_insert_merged, merged_nil.
Qed.

Lemma StronglySorted_adjacent (l : list measurement) :
  StronglySorted laterR l -> adjacentLater l.
Proof.
  induction 1 as [|x l Hs IH Hx]; intros i a b Ha Hb.
  - now destruct i.
  - destruct i as [|i]; simpl in Ha, Hb.
    + injection Ha as <-. rewrite Forall_forall in Hx.
      apply Hx. destruct l; [discriminate|]. simpl in Hb.
      injection Hb as <-. now left.
    + eapply IH; eassumption.
Qed.

(** C1: whatever the two input collections (and whatever the library sort
    does to them), the list returned by [mergeItems] has no two equal
    records and every adjacent pair [(a, b)] of it satisfies
    [isLater a b]; [isLater] is the lexicographic later-or-equal
    comparison on (year, month, day, hour, minute). *)
Theorem mergeItems_nodup_sorted (sortSlice : sorter)
        (newItems oldItems : list measurement) :
  NoDup (mergeItems sortSlice newItems oldItems) /\
  adjacentLater (mergeItems sortSlice newItems oldItems) /\
  (forall a b : measurement,
      isLater a b = true <-> lexGe (stamp a) (stamp b)).
Proof.
  destruct (mergeItems_merged sortSlice newItems oldItems) as [Hs Hn].
  split; [exact Hn|]. split.
  - now apply StronglySorted_adjacent.
  - exact isLater_lexGe.
Qed.

(* ------------------------------------------------------------------ *)
(** *** The library insertion sort only permutes *)

Lemma sink_perm (less : measurement -> measurement -> bool)
      (x : measurement) (rp : list measurement) :
  Permutation (sink less x rp) (x :: rp).
Proof.
  induction rp as [|y rp IH]; simpl; [reflexivity|].
  destruct (less x y); [|reflexivity].
  rewrite IH. apply perm_swap.
Qed.

Lemma insertionSort_perm (less : measurement -> measurement -> bool)
      (l : list measurement) :
  Permutation (insertionSort less l) l.
Proof.
  unfold insertionSort. rewrite <- Permutation_rev.
  enough (G : forall acc,
             Permutation (fold_left (fun rp x => sink less x rp) l acc)
                         (l ++ acc))
    by (rewrite G, app_nil_r; reflexivity).
  induction l as [|x l IH]; intros acc; simpl; [reflexivity|].
  rewrite IH, sink_perm. symmetry. apply Permutation_middle.
Qed.

(* ------------------------------------------------------------------ *)
(** *** Merging against an empty collection *)

Section MergeWithSort.

Variable sortSlice : sorter.
Hypothesis sortSlice_perm :
  forall less l, Permutation (sortSlice less l) l.

Lemma mergeItems_In (newItems oldItems : list measurement) (y : measurement) :
  In y (mergeItems sortSlice newItems oldItems) <->
  In y newItems \/ In y oldItems.
Proof.
  unfold mergeItems. rewrite !fold_insert_In. simpl.
  split.
  - intros [H|[H|[]]].
    + right. eapply Permutation_in; [apply sortSlice_perm | exact H].
    + left. eapply Permutation_in; [apply sortSlice_perm | exact H].
  - intros [H|H].
    + right. left.
      eapply Permutation_in; [symmetry; apply sortSlice_perm | exact H].
    + left.
      eapply Permutation_in; [symmetry; apply sortSlice_perm | exact H].
Qed.

(** C6: [mergeItems A []] holds exactly the records of [A], each
    once: nothing but exact duplicates is dropped, and its length is
    that of [A] with duplicates removed. *)
Theorem mergeItems_empty_dedup (A : list measurement) :
  NoDup (mergeItems sortSlice A []) /\
  (forall x : measurement, In x (mergeItems sortSlice A []) <-> In x A) /\
  length (mergeItems sortSlice A []) = length (nodup measurement_eq_dec A).
Proof.
  destruct (mergeItems_merged sortSlice A []) as [_ Hn].
  assert (Hin : forall x, In x (mergeItems sortSlice A []) <-> In x A).
  { intros x. rewrite mergeItems_In. simpl. tauto. }
  split; [exact Hn|]. split; [exact Hin|].
  apply Permutation_length, NoDup_Permutation.
  - exact Hn.
  - apply NoDup_nodup.
  - intros x. rewrite Hin, nodup_In. reflexivity.
Qed.

End MergeWithSort.

(** A collection with an internal duplicate, merged with the library
    insertion sort. *)
Lemma mergeItems_empty_dedup_witness :
  let a := mkMeasurement 0 120 80 60 6 1 8 30 2016 in
  let b := mkMeasurement 0 130 85 70 6 2 9 0 2016 in
  NoDup (mergeItems insertionSort [a; b; a] []) /\
  (forall x, In x (mergeItems insertionSort [a; b; a] []) <-> In x [a; b; a]) /\
  length (mergeItems insertionSort [a; b; a] []) = 2%nat.
Proof.
  intros a b.
  exact (mergeItems_empty_dedup insertionSort insertionSort_perm [a; b; a]).
Defined.

(* ------------------------------------------------------------------ *)
(** *** Merging the output of a merge again *)

Lemma isLater_antisym_stamp (a b : measurement) :
  isLater a b = true -> isLater b a = true -> stamp a = stamp b.
Proof.
  rewrite !isLater_lexGe. unfold stamp; simpl. intros H1 H2.
  assert (Year a = Year b) by lia.
  assert (Month a = Month b) by lia.
  assert (Day a = Day b) by lia.
  assert (Hour a = Hour b) by lia.
  assert (Minute a = Minute b) by lia.
  congruence.
Qed.

Lemma NoDup_map_inj {A B : Type} (f : A -> B) (l : list A) (a b : A) :
  NoDup (map f l) -> In a l -> In b l -> f a = f b -> a = b.
Proof.
  induction l as [|x l IH]; simpl; [tauto|].
  intros Hn Ha Hb E. inversion Hn as [|? ? Hx Hl]; subst.
  destruct Ha as [->|Ha], Hb as [->|Hb].
  - reflexivity.
  - exfalso. apply Hx. rewrite E. now apply in_map.
  - exfalso. apply Hx. rewrite <- E. now apply in_map.
  - now apply IH.
Qed.

(** Two descending lists with the same records coincide when the order
    is antisymmetric on those records. *)
Lemma sorted_perm_unique (l1 l2 : list measurement) :
  StronglySorted laterR l1 -> StronglySorted laterR l2 ->
  Permutation l1 l2 ->
  (forall a b, In a l1 -> In b l1 ->
               isLater a b = true -> isLater b a = true -> a = b) ->
  l1 = l2.
Proof.
  intros H1. revert l2.
  induction H1 as [|a l1 Hs1 IH Ha]; intros l2 H2 Hp Hanti.
  - now apply Permutation_nil in Hp.
  - destruct H2 as [|b l2 Hs2 Hb].
    + symmetry in Hp. now apply Permutation_nil in Hp.
    + assert (E : a = b).
      { assert (Hab : In a (b :: l2))
          by (eapply Permutation_in; [exact Hp | now left]).
        assert (Hba : In b (a :: l1))
          by (eapply Permutation_in; [symmetry; exact Hp | now left]).
        destruct Hab as [->|Hab]; [reflexivity|].
        destruct Hba as [->|Hba]; [reflexivity|].
        rewrite Forall_forall in Ha, Hb.
        apply Hanti; [now left | now right | now apply Ha | now apply Hb]. }
      subst b. f_equal. apply IH.
      * exact Hs2.
      * eapply Permutation_cons_inv. exact Hp.
      * intros x y Hx Hy. apply Hanti; now right.
Qed.

Section MergeAgain.

Variable sortSlice : sorter.
Hypothesis sortSlice_perm :
  forall less l, Permutation (sortSlice less l) l.

(** Whatever the ties, a second merge keeps the records of the first. *)
Lemma mergeItems_again_perm (A B : list measurement) :
  Permutation (mergeItems sortSlice (mergeItems sortSlice A B) [])
              (mergeItems sortSlice A B).
Proof.
  apply NoDup_Permutation.
  - apply mergeItems_merged.
  - apply mergeItems_merged.
  - intros x. rewrite (mergeItems_In sortSlice sortSlice_perm _ []).
    simpl. tauto.
Qed.

(** C9 (as amended): when no two records of [mergeItems A B] carry the
    same (year, month, day, hour, minute), merging that output against
    the empty collection returns it unchanged, element for element. *)
Theorem mergeItems_idempotent_untied (A B : list measurement) :
  NoDup (map stamp (mergeItems sortSlice A B)) ->
  mergeItems sortSlice (mergeItems sortSlice A B) [] =
  mergeItems sortSlice A B.
Proof.
  intros Hst.
  apply sorted_perm_unique.
  - apply mergeItems_merged.
  - apply mergeItems_merged.
  - apply mergeItems_again_perm.
  - intros a b Ha Hb Lab Lba.
    pose proof (mergeItems_again_perm A B) as Hp.
    apply (NoDup_map_inj stamp (mergeItems sortSlice A B)).
    + exact Hst.
    + eapply Permutation_in; [exact Hp | exact Ha].
    + eapply Permutation_in; [exact Hp | exact Hb].
    + now apply isLater_antisym_stamp.
Qed.

End MergeAgain.

Lemma mergeItems_idempotent_untied_witness :
  let a := mkMeasurement 0 120 80 60 6 1 8 30 2016 in
  let b := mkMeasurement 0 130 85 70 6 2 9 0 2016 in
  let c := mkMeasurement 0 125 82 65 6 2 21 15 2016 in
  mergeItems insertionSort (mergeItems insertionSort [a; c] [b; a]) [] =
  mergeItems insertionSort [a; c] [b; a].
Proof.
  intros a b c.
  apply (mergeItems_idempotent_untied insertionSort insertionSort_perm).
  vm_compute.
  repeat constructor; simpl; intuition discriminate.
Defined.

(** C9 as stated fails on tied records: two different readings taken in
    the same minute come out of [mergeItems] in one order and out of a
    second [mergeItems] in the other. *)
Lemma mergeItems_not_idempotent_on_ties :
  let a := mkMeasurement 0 120 80 60 6 1 8 30 2016 in
  let b := mkMeasurement 0 135 85 70 6 1 8 30 2016 in
  mergeItems insertionSort [a; b] [] = [b; a] /\
  mergeItems insertionSort (mergeItems insertionSort [a; b] []) [] = [a; b] /\
  mergeItems insertionSort (mergeItems insertionSort [a; b] []) [] <>
  mergeItems insertionSort [a; b] [].
Proof.
  intros a b. split; [reflexivity|]. split; [reflexivity|].
  vm_compute. discriminate.
Qed.

(* ------------------------------------------------------------------ *)
(** *** WHO classification *)

(** C3: [WHOClass] returns the category of the first matching row of the
    ordered threshold table (Severe Hypertension when no row matches)
    and, separately, the Isolated Systolic Hypertension flag exactly
    when systolic >= 140 and diastolic < 90; a reading of 145/85 is
    Mild Hypertension with the flag. *)
Theorem WHOClass_first_match (m : measurement) :
  fst (WHOClass m) =
    firstMatch whoTable BPSevereHypertension (Systolic m) (Diastolic m) /\
  (snd (WHOClass m) = IsolatedSystolicHypertension <->
     Systolic m >= 140 /\ Diastolic m < 90) /\
  (snd (WHOClass m) = IsolatedSystolicHypertension \/ snd (WHOClass m) = 0) /\
  (forall h p mo d ho mi y,
      let r := mkMeasurement h 145 85 p mo d ho mi y in
      WHOClass r = (BPMildHypertension, IsolatedSystolicHypertension) /\
      nth (Z.to_nat (fst (WHOClass r))) WHOPressureClassification EmptyString
        = "Mild Hypertension"%string /\
      nth (Z.to_nat (snd (WHOClass r))) WHOPressureFlag EmptyString
        = "Isolated Systolic Hypertension"%string).
Proof.
  split; [|split; [|split]].
  - unfold WHOClass, whoTable, firstMatch.
    repeat match goal with
           | |- context [if ?c then _ else _] => destruct c
           end; reflexivity.
  - unfold WHOClass, IsolatedSystolicHypertension.
    destruct (Z.geb_spec (Systolic m) 140), (Z.ltb_spec (Diastolic m) 90);
      cbn [andb];
      repeat match goal with
             | |- context [if ?c then _ else _] => destruct c
             end; cbn [snd]; split; intros; try lia; discriminate.
  - unfold WHOClass.
    repeat match goal with
           | |- context [if ?c then _ else _] => destruct c
           end; cbn [snd]; tauto.
  - intros. repeat split.
Qed.

(* ------------------------------------------------------------------ *)
(** *** Time-of-day filter *)

Lemma compare_lt (m : measurement) (t : simpleTime) :
  (compare m t =? -1) = (timeOfRecord m <? timeOf t).
Proof.
  unfold compare, timeOfRecord, timeOf.
  destruct (Z.ltb_spec (minuteOfDay (Hour m) (Minute m))
                       (minuteOfDay (hour t) (minute t))); [reflexivity|].
  now destruct (_ >? _).
Qed.

Lemma compare_gt (m : measurement) (t : simpleTime) :
  (compare m t =? 1) = (timeOf t <? timeOfRecord m).
Proof.
  unfold compare, timeOfRecord, timeOf.
  rewrite Z.gtb_ltb.
  destruct (Z.ltb_spec (minuteOfDay (Hour m) (Minute m))
                       (minuteOfDay (hour t) (minute t))).
  - simpl. symmetry. apply Z.ltb_ge. lia.
  - now destruct (_ <? _).
Qed.

Lemma timeLoop_filter (fg tg inv : bool) (st en : simpleTime)
      (items newItems : list measurement) :
  timeLoop fg tg inv st en items newItems =
  newItems ++ filter (passes fg tg inv st en) items.
Proof.
  revert newItems. induction items as [|data rest IH]; intros newItems.
  - simpl. now rewrite app_nil_r.
  - cbn [timeLoop filter]. unfold passes at 1.
    rewrite !compare_lt, !compare_gt, !IH.
    destruct inv.
    + destruct ((timeOfRecord data <? timeOf st) &&
                (timeOf en <? timeOfRecord data)); cbn [negb].
      * reflexivity.
      * now rewrite <- app_assoc.
    + destruct (fg && (timeOfRecord data <? timeOf st)); cbn [negb andb].
      * reflexivity.
      * destruct (tg && (timeOf en <? timeOfRecord data)); cbn [negb].
        -- reflexivity.
        -- now rewrite <- app_assoc.
Qed.

Lemma filter_all {A : Type} (l : list A) : filter (fun _ => true) l = l.
Proof. induction l; simpl; congruence. Qed.

Lemma timeFilter_kept_eq (fromTime toTime : option simpleTime)
      (items : list measurement) :
  timeFilter fromTime toTime items =
  filter (fun m => kept (option_map timeOf fromTime)
                        (option_map timeOf toTime) (timeOfRecord m)) items.
Proof.
  unfold timeFilter.
  destruct fromTime as [f|], toTime as [t|]; cbn [orb andb option_map kept];
    try rewrite timeLoop_filter; cbn [app].
  - apply filter_ext. intros m. unfold passes, timeOf, timeOfRecord.
    cbn [hour minute].
    set (a := minuteOfDay (hour f) (minute f)).
    set (b := minuteOfDay (hour t) (minute t)).
    set (x := minuteOfDay (Hour m) (Minute m)).
    rewrite Z.gtb_ltb.
    destruct (Z.ltb_spec b a), (Z.leb_spec a b), (Z.ltb_spec x a),
      (Z.ltb_spec b x), (Z.leb_spec a x), (Z.leb_spec x b);
      cbn; try reflexivity; lia.
  - apply filter_ext. intros m. unfold passes, timeOf, timeOfRecord.
    cbn [hour minute andb negb].
    set (a := minuteOfDay (hour f) (minute f)).
    set (x := minuteOfDay (Hour m) (Minute m)).
    destruct (Z.ltb_spec x a), (Z.leb_spec a x); cbn; try reflexivity; lia.
  - apply filter_ext. intros m. unfold passes, timeOf, timeOfRecord.
    cbn [hour minute andb negb].
    set (b := minuteOfDay (hour t) (minute t)).
    set (x := minuteOfDay (Hour m) (Minute m)).
    destruct (Z.ltb_spec b x), (Z.leb_spec x b); cbn; try reflexivity; lia.
  - symmetry. apply filter_all.
Qed.

Lemma kept_inWindow (f t : option Z) (x : Z) :
  0 <= x <= 1439 -> kept f t x = inWindow f t x.
Proof.
  intros Hx. unfold kept, inWindow.
  destruct f as [f|], t as [t|]; try reflexivity.
  destruct (f <=? t); [reflexivity|].
  replace (x <=? 1439) with true by (symmetry; apply Z.leb_le; lia).
  replace (0 <=? x) with true by (symmetry; apply Z.leb_le; lia).
  now rewrite andb_true_r.
Qed.

(** C5 (as amended): the time-of-day block keeps exactly the records
    whose minute of the day lies in [fromTime, toTime] when
    fromTime <= toTime; when fromTime > toTime, exactly those at or
    after fromTime or at or before toTime; with one bound, those on the
    right side of it.  On records whose minute of the day is within
    0..1439 this is the window of the specification, wrapping window
    [fromTime, 1439] or [0, toTime] included. *)
Theorem timeFilter_keeps (fromTime toTime : option simpleTime)
        (items : list measurement) :
  timeFilter fromTime toTime items =
    filter (fun m => kept (option_map timeOf fromTime)
                          (option_map timeOf toTime) (timeOfRecord m)) items /\
  (Forall (fun m => 0 <= timeOfRecord m <= 1439) items ->
   timeFilter fromTime toTime items =
     filter (fun m => inWindow (option_map timeOf fromTime)
                               (option_map timeOf toTime) (timeOfRecord m))
            items).
Proof.
  split; [apply timeFilter_kept_eq|].
  intros Hv. rewrite timeFilter_kept_eq.
  induction Hv as [|m l Hm Hl IH]; [reflexivity|].
  cbn [filter]. rewrite IH, (kept_inWindow _ _ _ Hm). reflexivity.
Qed.

(** Night window 21:00 to 09:00: the readings of 23:30 and 06:00 stay,
    the reading of 15:00 goes. *)
Lemma timeFilter_keeps_witness :
  let at_ h mi := mkMeasurement 0 120 80 60 6 1 h mi 2016 in
  timeFilter (Some (mkSimpleTime 21 0)) (Some (mkSimpleTime 9 0))
             [at_ 23 30; at_ 15 0; at_ 6 0] = [at_ 23 30; at_ 6 0].
Proof.
  intros at_.
  rewrite (proj2 (timeFilter_keeps (Some (mkSimpleTime 21 0))
                                   (Some (mkSimpleTime 9 0))
                                   [at_ 23 30; at_ 15 0; at_ 6 0])).
  - reflexivity.
  - repeat constructor; vm_compute; discriminate.
Defined.

(** C5 as stated fails outside the 24-hour clock: with the window 21:00
    to 09:00 a record whose hour field is 24 is kept, although its
    minute of the day, 1440, lies neither in [1260, 1439] nor in
    [0, 540]. *)
Lemma timeFilter_keeps_hour_24 :
  let r := mkMeasurement 0 120 80 60 6 1 24 0 2016 in
  let fromTime := Some (mkSimpleTime 21 0) in
  let toTime := Some (mkSimpleTime 9 0) in
  timeFilter fromTime toTime [r] = [r] /\
  inWindow (option_map timeOf fromTime) (option_map timeOf toTime)
           (timeOfRecord r) = false /\
  timeFilter fromTime toTime [r] <>
  filter (fun m => inWindow (option_map timeOf fromTime)
                            (option_map timeOf toTime) (timeOfRecord m)) [r].
Proof.
  intros r fromTime toTime. split; [reflexivity|]. split; [reflexivity|].
  vm_compute. discriminate.
Qed.

(* ------------------------------------------------------------------ *)
(** *** Date-range filter *)

Lemma findIndex_shift {A : Type} (p : A -> bool) (l : list A) (i : nat) :
  findIndex p l (S i) = option_map S (findIndex p l i).
Proof.
  revert i. induction l as [|x l IH]; intros i; simpl; [reflexivity|].
  destruct (p x); [reflexivity | apply IH].
Qed.

Lemma findIndex_None {A : Type} (p : A -> bool) (l : list A) (i : nat) :
  findIndex p l i = None -> forall x, In x l -> p x = false.
Proof.
  revert i. induction l as [|y l IH]; intros i H x Hx; simpl in *; [tauto|].
  destruct (p y) eqn:E; [discriminate|].
  destruct Hx as [->|Hx]; [exact E | eapply IH; eassumption].
Qed.

Lemma filter_true {A : Type} (p : A -> bool) (l : list A) :
  (forall x, In x l -> p x = true) -> filter p l = l.
Proof.
  induction l as [|x l IH]; intros H; simpl; [reflexivity|].
  rewrite (H x (or_introl eq_refl)), IH; [reflexivity|].
  intros y Hy. apply H. now right.
Qed.

Lemma filter_false {A : Type} (p : A -> bool) (l : list A) :
  (forall x, In x l -> p x = false) -> filter p l = [].
Proof.
  induction l as [|x l IH]; intros H; simpl; [reflexivity|].
  rewrite (H x (or_introl eq_refl)). apply IH.
  intros y Hy. apply H. now right.
Qed.

Lemma filter_twice {A : Type} (p q : A -> bool) (l : list A) :
  filter q (filter p l) = filter (fun x => p x && q x) l.
Proof.
  induction l as [|x l IH]; simpl; [reflexivity|].
  destruct (p x); simpl; [destruct (q x)|]; now rewrite IH.
Qed.

Section DateFilterFacts.

Variable timeDate : Z -> Z -> Z -> Z -> Z -> Z.

Lemma chronoDesc_filter (p : measurement -> bool) (items : list measurement) :
  chronoDesc timeDate items -> chronoDesc timeDate (filter p items).
Proof.
  induction 1 as [|x l Hs IH Hx]; simpl; [constructor|].
  destruct (p x); [|exact IH].
  constructor; [exact IH|].
  rewrite Forall_forall in *. intros y Hy.
  apply filter_In in Hy. now apply Hx.
Qed.

Lemma fromDateLoop_filter (s : Z) (items : list measurement) :
  chronoDesc timeDate items ->
  fromDateLoop timeDate s items = filter (fun m => s <=? iDate timeDate m) items.
Proof.
  unfold fromDateLoop.
  induction 1 as [|x l Hs IH Hx]; [reflexivity|].
  cbn [findIndex filter].
  destruct (Z.ltb_spec (iDate timeDate x - s) 0) as [Hlt|Hge].
  - replace (s <=? iDate timeDate x) with false by (symmetry; apply Z.leb_gt; lia).
    symmetry. apply filter_false. intros y Hy.
    rewrite Forall_forall in Hx. specialize (Hx y Hy).
    apply Z.leb_gt. lia.
  - replace (s <=? iDate timeDate x) with true by (symmetry; apply Z.leb_le; lia).
    rewrite findIndex_shift, <- IH.
    now destruct (findIndex _ l 0).
Qed.

Lemma toDateLoop_filter (e : Z) (items : list measurement) :
  chronoDesc timeDate items ->
  (exists m, In m items /\ iDate timeDate m <= e) ->
  toDateLoop timeDate e items = filter (fun m => iDate timeDate m <=? e) items.
Proof.
  unfold toDateLoop.
  induction 1 as [|x l Hs IH Hx]; intros [m [Hm Hle]]; [destruct Hm|].
  cbn [findIndex filter].
  destruct (Z.leb_spec (iDate timeDate x - e) 0) as [Hin|Hout].
  - replace (iDate timeDate x <=? e) with true by (symmetry; apply Z.leb_le; lia).
    cbn [skipn]. f_equal. symmetry. apply filter_true.
    intros y Hy. rewrite Forall_forall in Hx. specialize (Hx y Hy).
    apply Z.leb_le. lia.
  - replace (iDate timeDate x <=? e) with false by (symmetry; apply Z.leb_gt; lia).
    destruct Hm as [->|Hm]; [lia|].
    rewrite findIndex_shift, <- IH by (exists m; tauto).
    destruct (findIndex _ l 0) as [j|] eqn:F; [reflexivity|].
    exfalso. pose proof (findIndex_None _ _ _ F m Hm) as Hf.
    simpl in Hf. apply Z.leb_gt in Hf. lia.
Qed.

(** When every record is later than [endDate] the to-date loop never
    cuts: the collection is left as it is. *)
Lemma toDateLoop_no_cut (e : Z) (items : list measurement) :
  (forall m, In m items -> e < iDate timeDate m) ->
  toDateLoop timeDate e items = items.
Proof.
  intros H. unfold toDateLoop.
  destruct (findIndex _ items 0) as [j|] eqn:F; [|reflexivity].
  exfalso. revert F. generalize 0%nat.
  induction items as [|x l IH]; intros i F; simpl in F; [discriminate|].
  destruct (Z.leb_spec (iDate timeDate x - e) 0) as [Hle|Hgt].
  - specialize (H x (or_introl eq_refl)). lia.
  - eapply IH; [|exact F]. intros m Hm. apply H. now right.
Qed.

(** The order of [isLater] on neighbours is an order on the whole
    list, and with [dateKeepsOrder] it is the order of the instants. *)
Lemma adjacentLater_sorted (items : list measurement) :
  adjacentLater items -> StronglySorted laterR items.
Proof.
  induction items as [|x l IH]; intros H; [constructor|].
  assert (Hl : StronglySorted laterR l).
  { apply IH. intros i a b Ha Hb. exact (H (S i) a b Ha Hb). }
  constructor; [exact Hl|].
  destruct l as [|y l']; [constructor|].
  assert (Hxy : isLater x y = true) by (apply (H 0%nat); reflexivity).
  constructor; [exact Hxy|].
  apply StronglySorted_inv in Hl as [_ Hy].
  rewrite Forall_forall in *. intros z Hz.
  exact (isLater_trans x y z Hxy (Hy z Hz)).
Qed.

Lemma adjacentLater_chronoDesc (items : list measurement) :
  adjacentLater items -> dateKeepsOrder timeDate items ->
  chronoDesc timeDate items.
Proof.
  intros Ha Hk. apply adjacentLater_sorted in Ha.
  unfold chronoDesc.
  induction Ha as [|x l Hs IH Hx]; [constructor|].
  constructor.
  - apply IH. intros a b Hia Hib. apply Hk; now right.
  - rewrite Forall_forall in *. intros y Hy.
    apply Hk; [now left | now right | exact (Hx y Hy)].
Qed.

(** C4 (as amended): on a collection in the descending order that
    [isLater] decides (the order of [mergeItems]), whose records
    [time.Date] orders as their fields do, the from-date loop keeps
    exactly the records at or after [fromDate] (none when all are
    earlier); the to-date loop keeps exactly the records at or before
    [toDate], a record dated [toDate] itself included, provided some
    record the from-date loop kept is at or before [toDate]. *)
Theorem dateFilter_sorted (items : list measurement) :
  adjacentLater items ->
  dateKeepsOrder timeDate items ->
  (forall s,
      dateFilter timeDate (Some s) None items =
      filter (fun m => s <=? iDate timeDate m) items) /\
  (forall e,
      (exists m, In m items /\ iDate timeDate m <= e) ->
      dateFilter timeDate None (Some e) items =
      filter (fun m => iDate timeDate m <=? e) items) /\
  (forall s e,
      (exists m, In m items /\ s <= iDate timeDate m <= e) ->
      dateFilter timeDate (Some s) (Some e) items =
      filter (fun m => (s <=? iDate timeDate m) && (iDate timeDate m <=? e)) items).
Proof.
  intros Ha Hk.
  pose proof (adjacentLater_chronoDesc items Ha Hk) as Hs.
  split; [|split].
  - intros s. now apply fromDateLoop_filter.
  - intros e He. now apply toDateLoop_filter.
  - intros s e [m [Hm [H1 H2]]]. unfold dateFilter.
    rewrite (fromDateLoop_filter s items Hs).
    rewrite toDateLoop_filter.
    + apply filter_twice.
    + now apply chronoDesc_filter.
    + exists m. split; [|exact H2].
      apply filter_In. split; [exact Hm|]. now apply Z.leb_le.
Qed.

End DateFilterFacts.

(** **** The calendar in zone UTC *)

Lemma month_cases (m : Z) :
  1 <= m <= 12 ->
  m = 1 \/ m = 2 \/ m = 3 \/ m = 4 \/ m = 5 \/ m = 6 \/
  m = 7 \/ m = 8 \/ m = 9 \/ m = 10 \/ m = 11 \/ m = 12.
Proof. lia. Qed.

Ltac months H :=
  apply month_cases in H;
  repeat (destruct H as [H|H]; [subst|]); [..|subst].

Lemma dateUTC_calendar (y mo d h mi : Z) :
  1 <= mo <= 12 ->
  dateUTC y mo d h mi =
  (yearStart y + monthStart (isLeap y) mo + (d - 1)) * 86400
  + h * 3600 + mi * 60.
Proof.
  intros Hm. unfold dateUTC, yearStart, monthStart.
  replace ((mo - 1) / 12) with 0 by (symmetry; apply Z.div_small; lia).
  rewrite Z.mod_small by lia. rewrite Z.add_0_r.
  replace (2 <=? mo - 1) with (3 <=? mo); [lia|].
  destruct (Z.leb_spec 3 mo), (Z.leb_spec 2 (mo - 1)); auto; lia.
Qed.

Lemma yearStart_next (y : Z) :
  yearStart (y + 1) = yearStart y + 365 + (if isLeap y then 1 else 0).
Proof.
  unfold yearStart, isLeap.
  replace (y + 1 - 1) with y by lia.
  destruct (Z.eqb_spec (y mod 4) 0), (Z.eqb_spec (y mod 100) 0),
    (Z.eqb_spec (y mod 400) 0); cbn [andb orb negb];
    Z.div_mod_to_equations; lia.
Qed.

Lemma yearStart_mono (y z : Z) : y <= z -> yearStart y <= yearStart z.
Proof.
  intros H. replace z with (y + Z.of_nat (Z.to_nat (z - y))) by lia.
  induction (Z.to_nat (z - y)) as [|k IH]; [rewrite Z.add_0_r; lia|].
  replace (y + Z.of_nat (S k)) with (y + Z.of_nat k + 1) by lia.
  rewrite yearStart_next. destruct (isLeap _); lia.
Qed.

Lemma monthStart_mono (y mo mo' : Z) :
  1 <= mo -> mo < mo' -> mo' <= 12 ->
  monthStart (isLeap y) mo + daysIn y mo <= monthStart (isLeap y) mo'.
Proof.
  intros H1 H2 H3. unfold daysIn.
  assert (Hm : 1 <= mo <= 12) by lia.
  assert (Hm' : 1 <= mo' <= 12) by lia.
  destruct (isLeap y);
    months Hm; months Hm'; try lia; vm_compute; discriminate.
Qed.

Lemma monthStart_bounds (y mo : Z) :
  1 <= mo <= 12 ->
  0 <= monthStart (isLeap y) mo /\
  monthStart (isLeap y) mo + daysIn y mo
    <= 365 + (if isLeap y then 1 else 0).
Proof.
  intros Hm. unfold daysIn. destruct (isLeap y);
    months Hm; vm_compute; split; discriminate.
Qed.

(** In zone UTC, on records whose fields are a date of the calendar
    and a time of day, the instants follow the fields: such a
    collection satisfies [dateKeepsOrder]. *)
Lemma dateUTC_keeps_order (items : list measurement) :
  Forall validCalendar items -> dateKeepsOrder dateUTC items.
Proof.
  intros Hv a b Ha Hb Hab. rewrite Forall_forall in Hv.
  destruct (Hv a Ha) as (Hmo & Hd & Hh & Hmi).
  destruct (Hv b Hb) as (Hmo' & Hd' & Hh' & Hmi').
  apply isLater_lexGe in Hab. unfold stamp in Hab. cbn [lexGe] in Hab.
  unfold iDate. rewrite !dateUTC_calendar by assumption.
  pose proof (monthStart_bounds (Year a) (Month a) Hmo) as [B1 B2].
  pose proof (monthStart_bounds (Year b) (Month b) Hmo') as [B1' B2'].
  destruct Hab as [Hy|[Ey H]].
  - assert (Hs : yearStart (Year b + 1) <= yearStart (Year a))
      by (apply yearStart_mono; lia).
    rewrite yearStart_next in Hs. lia.
  - rewrite Ey in *. destruct H as [Hm|[Em H]].
    + pose proof (monthStart_mono (Year b) (Month b) (Month a)). lia.
    + rewrite Em in *. lia.
Qed.

(** Three readings, latest first, cut at both ends (zone UTC). *)
Lemma dateFilter_sorted_witness :
  let on d := mkMeasurement 0 120 80 60 6 d 8 30 2016 in
  let day d := dateUTC 2016 6 d 0 0 in
  dateFilter dateUTC (Some (day 10)) None [on 30; on 15; on 1]
    = [on 30; on 15] /\
  dateFilter dateUTC None (Some (day 20)) [on 30; on 15; on 1]
    = [on 15; on 1] /\
  dateFilter dateUTC (Some (day 10)) (Some (day 20)) [on 30; on 15; on 1]
    = [on 15].
Proof.
  intros on day.
  assert (Ha : adjacentLater [on 30; on 15; on 1]).
  { apply StronglySorted_adjacent. repeat constructor. }
  assert (Hk : dateKeepsOrder dateUTC [on 30; on 15; on 1]).
  { apply dateUTC_keeps_order.
    repeat constructor; vm_compute; discriminate. }
  destruct (dateFilter_sorted dateUTC _ Ha Hk) as [H1 [H2 H3]].
  split; [|split].
  - rewrite H1. reflexivity.
  - rewrite H2; [reflexivity|].
    exists (on 1). split; [simpl; tauto | vm_compute; discriminate].
  - rewrite H3; [reflexivity|].
    exists (on 15). split; [simpl; tauto|].
    split; vm_compute; discriminate.
Defined.

(** C4 as stated fails twice.  At the upper bound: a record dated
    exactly [toDate] is kept, where the claim keeps only records
    strictly before it.  And on the order: [mergeItems] orders records
    by their fields, [time.Date] by the instant they denote; with an
    hour field of 25 (a byte the device can send) the second record of
    a merged collection is the later instant, so the from-date loop
    stops at the first record and drops a record that is after
    [fromDate], and the to-date loop keeps a record that is after
    [toDate]. *)
Lemma dateFilter_not_as_claimed :
  let r := mkMeasurement 0 120 80 60 6 30 0 0 2016 in
  let toDate := dateUTC 2016 6 30 0 0 in
  let a := mkMeasurement 0 120 80 60 6 2 0 30 2016 in
  let b := mkMeasurement 0 120 80 60 6 1 25 0 2016 in
  let bound := dateUTC 2016 6 2 0 45 in
  (adjacentLater [r] /\ validCalendar r /\
   iDate dateUTC r = toDate /\
   dateFilter dateUTC None (Some toDate) [r] = [r] /\
   dateFilter dateUTC None (Some toDate) [r] <>
   filter (fun m => iDate dateUTC m <? toDate) [r]) /\
  (mergeItems insertionSort [b; a] [] = [a; b] /\
   adjacentLater [a; b] /\
   iDate dateUTC a < bound < iDate dateUTC b /\
   dateFilter dateUTC (Some bound) None [a; b] = [] /\
   dateFilter dateUTC (Some bound) None [a; b] <>
   filter (fun m => bound <=? iDate dateUTC m) [a; b] /\
   dateFilter dateUTC None (Some bound) [a; b] = [a; b] /\
   dateFilter dateUTC None (Some bound) [a; b] <>
   filter (fun m => iDate dateUTC m <? bound) [a; b]).
Proof.
  intros r toDate a b bound. split.
  - split; [apply StronglySorted_adjacent; repeat constructor|].
    split; [vm_compute; intuition discriminate|].
    split; [reflexivity|]. split; [reflexivity|].
    vm_compute. discriminate.
  - split; [reflexivity|].
    split; [apply StronglySorted_adjacent; repeat constructor|].
    split; [vm_compute; split; reflexivity|].
    split; [reflexivity|].
    split; [vm_compute; discriminate|].
    split; [reflexivity|].
    vm_compute. discriminate.
Qed.

(* ------------------------------------------------------------------ *)
(** *** Statistics: preconditions and errors *)

Section StatisticsFacts.

Context {F : Float64}.

Lemma averageStep_count (items : list measurement) (acc : measurement * Z) :
  snd (fold_left averageStep items acc) = snd acc + Z.of_nat (length items).
Proof.
  revert acc. induction items as [|x l IH]; intros [am c].
  - simpl. lia.
  - cbn [fold_left length]. rewrite IH. cbn [averageStep snd]. lia.
Qed.

Lemma average_error (items : list measurement) :
  snd (average items) =
  match items with [] => Some errEmptySet | _ :: _ => None end.
Proof.
  unfold average.
  pose proof (averageStep_count items (zeroMeasurement, 0)) as Hc.
  destruct (fold_left averageStep items (zeroMeasurement, 0)) as [am c].
  cbn [snd] in Hc. subst c.
  destruct items as [|x l]; [reflexivity|].
  destruct (Z.eqb_spec (0 + Z.of_nat (length (x :: l))) 0) as [E|E].
  - simpl in E. lia.
  - reflexivity.
Qed.

Lemma deviation_guard (items : list measurement) :
  (Z.of_nat (length items) <=? 1) =
  match items with [] | [_] => true | _ :: _ :: _ => false end.
Proof.
  destruct items as [|a [|b l]]; try reflexivity.
  apply Z.leb_gt. simpl length. lia.
Qed.

(** C8: [average] and [median] fail, with the empty-set error and a
    zero measurement, exactly on the empty collection; [stdDeviation]
    and [avgAbsoluteDeviation] fail, with the set-too-small error and a
    zero measurement, exactly on collections of at most one record; on
    every other input they return no error.  The two errors differ. *)
Theorem statistics_errors (items : list measurement) :
  match items with
  | [] => average items = (zeroMeasurement, Some errEmptySet) /\
          median items = (zeroMeasurement, Some errEmptySet)
  | _ :: _ => snd (average items) = None /\ snd (median items) = None
  end /\
  match items with
  | [] | [_] =>
      stdDeviation items = (zeroMeasurement, Some errSetTooSmall) /\
      avgAbsoluteDeviation items = (zeroMeasurement, Some errSetTooSmall)
  | _ :: _ :: _ =>
      snd (stdDeviation items) = None /\
      snd (avgAbsoluteDeviation items) = None
  end /\
  errEmptySet <> errSetTooSmall.
Proof.
  split; [|split; [|discriminate]].
  - destruct items as [|x l].
    + split; reflexivity.
    + split; [apply (average_error (x :: l))|].
      unfold median.
      destruct (Z.eqb_spec (Z.of_nat (length (x :: l))) 0) as [E|E];
        [simpl in E; lia | reflexivity].
  - pose proof (deviation_guard items) as G.
    pose proof (average_error items) as A.
    unfold stdDeviation, avgAbsoluteDeviation. rewrite G.
    destruct items as [|a [|b l]]; try (split; reflexivity).
    destruct (average (a :: b :: l)) as [avg [err|]];
      [discriminate A|].
    split.
    + now destruct (deviationSums _ avg (a :: b :: l)) as [[? ?] ?].
    + now destruct (deviationSums _ avg (a :: b :: l)) as [[? ?] ?].
Qed.

End StatisticsFacts.

(** The worked examples of the specification, in exact arithmetic. *)
Example average_example :
  let r s d p := mkMeasurement 0 s d p 0 0 0 0 0 in
  @average exactFloat64 [r 120 80 60; r 130 90 70] = (r 125 85 65, None).
Proof. vm_compute. reflexivity. Qed.

Example median_examples :
  intMedian (sortInts [130; 110; 120]) = 120 /\
  intMedian (sortInts [140; 110; 130; 120]) = 125.
Proof. split; reflexivity. Qed.

(* ------------------------------------------------------------------ *)
(** *** The read loop [getData] *)

Lemma firstn_skipn_exact {A : Type} (p q : list A) (k j : nat) :
  length p = k ->
  firstn k (p ++ q) = p /\ skipn (k + j) (p ++ q) = skipn j q.
Proof.
  intros <-. split.
  - rewrite firstn_app, Nat.sub_diag, firstn_all. simpl. apply app_nil_r.
  - rewrite skipn_app, skipn_all2 by lia.
    simpl. f_equal. lia.
Qed.

Lemma store_nil (b : list byte) (t : nat) : store b t [] = b.
Proof.
  unfold store. simpl. rewrite Nat.add_0_r. apply firstn_skipn.
Qed.

Lemma store_length (b : list byte) (t : nat) (bs : list byte) :
  (t + length bs <= length b)%nat -> length (store b t bs) = length b.
Proof.
  intros H. unfold store.
  rewrite !length_app, length_firstn, length_skipn. lia.
Qed.

Lemma store_store (b : list byte) (t : nat) (c d : list byte) :
  (t + length c <= length b)%nat ->
  store (store b t c) (t + length c) d = store b t (c ++ d).
Proof.
  intros H. unfold store.
  assert (L : length (firstn t b ++ c) = (t + length c)%nat)
    by (rewrite length_app, length_firstn; lia).
  rewrite (app_assoc (firstn t b) c).
  destruct (firstn_skipn_exact (firstn t b ++ c) (skipn (t + length c) b)
                               (t + length c) (length d) L) as [E1 E2].
  rewrite E1, E2, skipn_skipn, length_app, <- !app_assoc.
  replace (length d + (t + length c))%nat
    with (t + (length c + length d))%nat by lia.
  reflexivity.
Qed.

Lemma store_front (b r : list byte) (i : nat) :
  (i < length r)%nat -> nth i (store b 0 r) x00 = nth i r x00.
Proof.
  intros H. unfold store. simpl. now rewrite app_nth1.
Qed.

Lemma decode_store (b r : list byte) :
  length r = 9%nat -> decode (store b 0 r) = decode r.
Proof.
  intros H. unfold decode, byteAt.
  rewrite !store_front by lia. reflexivity.
Qed.

(** A response that arrives whole, in non-empty reads, is read whole:
    [getData] returns exactly [size] and leaves the later reads
    untouched. *)
Lemma getDataLoop_arrives (s : port) (chunks : list (list byte)) :
  forall (rest : list readEvent) (bs b : list byte) (size : Z) (t : nat),
    arrives chunks bs ->
    Z.of_nat t + Z.of_nat (length bs) = size ->
    (Z.to_nat size <= length b)%nat ->
    getDataLoop s (map RData chunks ++ rest) size (Z.of_nat t) b =
    Done (size, None, store b t bs)
         (mkPort (openError s) rest (writeError s)
                 (writes s) (sent s) (closed s)).
Proof.
  induction chunks as [|c cs IH]; intros rest bs b size t [Hc Hne] Hsz Hb.
  - simpl in Hc. subst bs. simpl in Hsz.
    destruct rest as [|ev rest]; simpl;
      (replace (Z.of_nat t <? size) with false
        by (symmetry; apply Z.ltb_ge; lia));
      rewrite store_nil; repeat f_equal; lia.
  - simpl in Hc. subst bs. rewrite length_app in Hsz.
    apply Forall_cons_iff in Hne as [Hc0 Hcs].
    assert (0 < length c)%nat by (destruct c; [congruence | simpl; lia]).
    cbn [map app getDataLoop].
    replace (Z.of_nat t <? size) with true
      by (symmetry; apply Z.ltb_lt; lia).
    rewrite Nat2Z.id.
    rewrite firstn_all2 by lia.
    rewrite <- Nat2Z.inj_add.
    rewrite (IH rest (concat cs) (store b t c) size (t + length c)%nat).
    + rewrite store_store by lia. reflexivity.
    + now split.
    + lia.
    + rewrite store_length; lia.
Qed.

Lemma getData_arrives (s : port) (chunks : list (list byte))
      (rest : list readEvent) (bs b : list byte) (size : Z) :
  incoming s = map RData chunks ++ rest ->
  arrives chunks bs ->
  Z.of_nat (length bs) = size ->
  (Z.to_nat size <= length b)%nat ->
  getData b size s =
  Done (size, None, store b 0 bs)
       (mkPort (openError s) rest (writeError s)
               (writes s) (sent s) (closed s)).
Proof.
  intros Hin Ha Hsz Hb. unfold getData. rewrite Hin.
  now apply (getDataLoop_arrives s chunks rest bs b size 0).
Qed.

(** Whatever the port does, a return from the loop carries no error, at
    least [size] bytes, and has only consumed reads. *)
Lemma getDataLoop_done (s : port) (evs : list readEvent) :
  forall (size t : Z) (b : list byte) n err b' s',
    getDataLoop s evs size t b = Done (n, err, b') s' ->
    err = None /\ size <= n /\ t <= n /\
    exists used, evs = used ++ incoming s'.
Proof.
  induction evs as [|ev evs IH]; intros size t b n err b' s' H;
    simpl in H; destruct (Z.ltb_spec t size) as [Hlt|Hge].
  - discriminate.
  - injection H as <- <- <- <-. simpl.
    repeat split; try lia. now exists [].
  - destruct ev as [bs|msg]; [|discriminate].
    apply IH in H as (He & Hs & Ht & used & Hu).
    repeat split; try assumption; try lia.
    exists (RData bs :: used). simpl. now f_equal.
  - injection H as <- <- <- <-. simpl.
    repeat split; try lia. now exists [].
Qed.

(** Reading a single byte: the count returned is that of the one read
    that delivered something. *)
Lemma getDataLoop_one (s : port) (evs : list readEvent) :
  forall (b : list byte) n err b' s',
    getDataLoop s evs 1 0 b = Done (n, err, b') s' ->
    exists bs, In (RData bs) evs /\ n <= Z.of_nat (length bs).
Proof.
  induction evs as [|ev evs IH]; intros b n err b' s' H;
    cbn [getDataLoop] in H;
    replace (0 <? 1) with true in H by reflexivity.
  - discriminate.
  - destruct ev as [bs|msg]; [|discriminate].
    remember (firstn (length b - Z.to_nat 0) bs) as got eqn:G.
    destruct got as [|g got].
    + simpl in H. apply IH in H as (bs' & Hin & Hn).
      exists bs'. split; [now right | exact Hn].
    + exists bs. split; [now left|].
      assert (L : (1 <= length (g :: got) <= length bs)%nat).
      { split; [simpl; lia|]. rewrite G, length_firstn. apply Nat.le_min_r. }
      set (k := length (g :: got)) in *. clearbody k.
      destruct evs as [|ev' evs']; cbn [getDataLoop] in H;
        (replace (0 + Z.of_nat k <? 1) with false in H
          by (symmetry; apply Z.ltb_ge; lia));
        injection H as <- _ _ _; lia.
Qed.

(* ------------------------------------------------------------------ *)
(** *** The phases of [fetchData] *)

Lemma Write_ok oe inc we w snt cl (q : list byte) :
  we w = None ->
  Write q (mkPort oe inc we w snt cl) =
  Done None (mkPort oe inc we (S w) (snt ++ [q]) cl).
Proof. unfold Write. simpl. now intros ->. Qed.


Lemma recordRequests_cons (i n : nat) :
  recordRequests (S i) (S n) =
  [xa3; uint8 (Z.of_nat i + 1)] :: recordRequests (S (S i)) n.
Proof.
  unfold recordRequests. cbn [seq map].
  replace (Z.of_nat (S i)) with (Z.of_nat i + 1) by lia. reflexivity.
Qed.

(** The record loop on responses that arrive whole, as long as the
    writes succeed: one request and one decoded record per response. *)
Lemma recordsLoop_run (respChunks : list (list (list byte)))
      (responses : list (list byte)) :
  Forall2 arrives respChunks responses ->
  Forall (fun r => length r = 9%nat) responses ->
  forall (todo i : nat) (items : list measurement) (buf : list byte)
         oe rest we w snt cl,
    length buf = 128%nat ->
    (forall k, (k < length responses)%nat -> we (w + k)%nat = None) ->
    exists buf',
      length buf' = 128%nat /\
      recordsLoop (length responses + todo) (Z.of_nat i) items buf
        (mkPort oe (concat (map (map RData) respChunks) ++ rest)
                we w snt cl) =
      recordsLoop todo (Z.of_nat (i + length responses))
        (items ++ map decode responses) buf'
        (mkPort oe rest we (w + length responses)
                (snt ++ recordRequests (S i) (length responses)) cl).
Proof.
  induction 1 as [|chunks r respChunks responses Ha Hall IH];
    intros H9 todo i items buf oe rest we w snt cl Hbuf Hw.
  - exists buf. split; [exact Hbuf|]. simpl.
    now rewrite !Nat.add_0_r, !app_nil_r.
  - apply Forall_cons_iff in H9 as [Hr H9].
    cbn [length Nat.add recordsLoop map concat]. unfold bind at 1.
    rewrite Write_ok by (rewrite <- (Nat.add_0_r w); apply Hw; simpl; lia).
    unfold bind at 1.
    rewrite <- app_assoc.
    rewrite (getData_arrives _ chunks
               (concat (map (map RData) respChunks) ++ rest) r buf 9);
      [ | reflexivity | exact Ha | now rewrite Hr
        | rewrite Hbuf; simpl; lia ].
    cbn [openError writeError writes sent closed].
    replace (Z.of_nat i + 1) with (Z.of_nat (S i)) by lia.
    destruct (IH H9 todo (S i) (items ++ [decode (store buf 0 r)])
                 (store buf 0 r) oe rest we (S w)
                 (snt ++ [[xa3; uint8 (Z.of_nat (S i))]]) cl)
      as (buf' & Hb' & E).
    + rewrite store_length; [exact Hbuf | rewrite Hbuf, Hr; simpl; lia].
    + intros k Hk. replace (S w + k)%nat with (w + S k)%nat by lia.
      apply Hw. simpl. lia.
    + exists buf'. split; [exact Hb'|]. rewrite E.
      rewrite decode_store by exact Hr.
      rewrite recordRequests_cons, <- !app_assoc. cbn [app].
      replace (Z.of_nat i + 1) with (Z.of_nat (S i)) by lia.
      replace (i + S (length responses))%nat
        with (S i + length responses)%nat by lia.
      replace (w + S (length responses))%nat
        with (S w + length responses)%nat by lia.
      reflexivity.
Qed.

(** Handshake, description and count on a device that answers as it
    should: [fetchData] reaches the record loop with the three requests
    sent and the count byte read. *)
Lemma fetchData_reaches_records (sortSlice : sorter)
      (descChunks : list (list byte)) (desc : list byte) (count : byte)
      (restIn : list readEvent) we w snt cl :
  arrives descChunks desc -> length desc = 32%nat ->
  we w = None -> we (S w) = None -> we (S (S w)) = None ->
  exists buf,
    length buf = 128%nat /\
    fetchData sortSlice
      (mkPort None
              (RData [x55] :: map RData descChunks ++ RData [count] :: restIn)
              we w snt cl) =
    bind (recordsLoop (Z.to_nat (Z.of_N (Byte.to_N count))) 0 [] buf)
         (afterRecords sortSlice)
         (mkPort None restIn we (S (S (S w)))
                 (snt ++ [[xaa]; [xa4]; [xa2]]) cl).
Proof.
  intros Ha Hd W0 W1 W2.
  set (buf0 := repeat x00 128).
  set (buf1 := store buf0 0 [x55]).
  set (buf2 := store buf1 0 desc).
  set (buf3 := store buf2 0 [count]).
  assert (L0 : length buf0 = 128%nat) by reflexivity.
  assert (L1 : length buf1 = 128%nat) by reflexivity.
  assert (L2 : length buf2 = 128%nat).
  { unfold buf2. rewrite store_length; [exact L1 | rewrite L1, Hd; simpl; lia]. }
  assert (L3 : length buf3 = 128%nat).
  { unfold buf3. rewrite store_length; [exact L2 | rewrite L2; simpl; lia]. }
  exists buf3. split; [exact L3|].
  unfold fetchData. unfold bind at 1. cbn [OpenPort openError option_map].
  unfold bind at 1. rewrite Write_ok by exact W0.
  unfold bind at 1.
  rewrite (getData_arrives _ [[x55]]
             (map RData descChunks ++ RData [count] :: restIn)
             [x55] buf0 1);
    [ | reflexivity | split; [reflexivity | repeat constructor; discriminate]
      | reflexivity | rewrite L0; simpl; lia ].
  cbn [openError writeError writes sent closed].
  fold buf1.
  replace ((1 =? 1) && Byte.eqb (nth 0 buf1 x00) x55) with true
    by reflexivity.
  unfold bind at 1. rewrite Write_ok by exact W1.
  unfold bind at 1.
  rewrite (getData_arrives _ descChunks (RData [count] :: restIn)
             desc buf1 32);
    [ | reflexivity | exact Ha | now rewrite Hd | rewrite L1; simpl; lia ].
  cbn [openError writeError writes sent closed]. fold buf2.
  unfold bind at 1. rewrite Write_ok by exact W2.
  unfold bind at 1.
  rewrite (getData_arrives _ [[count]] restIn [count] buf2 1);
    [ | reflexivity | split; [reflexivity | repeat constructor; discriminate]
      | reflexivity | rewrite L2; simpl; lia ].
  cbn [openError writeError writes sent closed]. fold buf3.
  replace (1 =? 1) with true by reflexivity. cbv iota.
  replace (byteAt buf3 0) with (Z.of_N (Byte.to_N count)).
  - rewrite <- !app_assoc. reflexivity.
  - unfold byteAt, buf3. now rewrite store_front by (simpl; lia).
Qed.


Lemma uint8_value (z : Z) :
  0 <= z <= 255 -> Z.of_N (Byte.to_N (uint8 z)) = z.
Proof.
  intros Hz. unfold uint8. rewrite Z.mod_small by lia.
  destruct (Byte.of_N (Z.to_N z)) as [b|] eqn:E.
  - apply Byte.to_of_N in E. rewrite E. lia.
  - apply Byte.of_N_None_iff in E. lia.
Qed.

Lemma port_eta (s : port) :
  s = mkPort (openError s) (incoming s) (writeError s)
             (writes s) (sent s) (closed s).
Proof. now destruct s. Qed.

(** C2: on a port that opens, accepts every write, answers the
    handshake with the single byte 0x55, sends its 32-byte description,
    then the count byte N, then N nine-byte responses, [fetchData]
    sends after its three opening requests the N requests (0xa3, i),
    i = 1..N, decodes the responses by position and returns, with no
    error, the decoded records put through [mergeItems] against the
    empty collection, hence in descending chronological order: of two
    neighbours of the result the first is later than or equal to the
    second in the lexicographic order of (year, month, day, hour,
    minute), which is the order [isLater] decides. *)
Theorem fetchData_decodes (sortSlice : sorter) (s : port)
        (descChunks : list (list byte)) (desc : list byte) (count : byte)
        (respChunks : list (list (list byte)))
        (responses : list (list byte)) (rest : list readEvent) :
  openError s = None ->
  (forall k, writeError s k = None) ->
  arrives descChunks desc -> length desc = 32%nat ->
  Forall2 arrives respChunks responses ->
  Forall (fun r => length r = 9%nat) responses ->
  Z.of_nat (length responses) = Z.of_N (Byte.to_N count) ->
  incoming s =
    RData [x55] :: map RData descChunks ++
    RData [count] :: concat (map (map RData) respChunks) ++ rest ->
  (exists s',
      fetchData sortSlice s =
        Done (mergeItems sortSlice (map decode responses) [], None) s' /\
      sent s' =
        sent s ++ [[xaa]; [xa4]; [xa2]] ++
        map (fun i => [xa3; uint8 (Z.of_nat i)])
            (seq 1 (length responses)) /\
      incoming s' = rest /\ closed s' = true) /\
  adjacentLater (mergeItems sortSlice (map decode responses) []) /\
  (forall (i : nat) (a b : measurement),
      nth_error (mergeItems sortSlice (map decode responses) []) i
        = Some a ->
      nth_error (mergeItems sortSlice (map decode responses) []) (S i)
        = Some b ->
      lexGe (stamp a) (stamp b)) /\
  (forall a b : measurement,
      isLater a b = true <-> lexGe (stamp a) (stamp b)) /\
  Forall (fun i => Z.of_N (Byte.to_N (uint8 (Z.of_nat i))) = Z.of_nat i)
         (seq 1 (length responses)) /\
  (forall b0 b1 b2 b3 b4 b5 b6 b7 b8 : byte,
      let int (b : byte) := Z.of_N (Byte.to_N b) in
      decode [b0; b1; b2; b3; b4; b5; b6; b7; b8] =
      {| Header := int b0; Systolic := int b1 + 25;
         Diastolic := int b2 + 25; Pulse := int b3;
         Month := int b4; Day := int b5; Hour := int b6;
         Minute := int b7; Year := int b8 + 2000 |}).
Proof.
  intros Ho Hw Hd Hd32 Hr Hr9 Hn Hin.
  split; [|split; [|split; [|split; [|split; [|reflexivity]]]]].
  2: apply StronglySorted_adjacent, mergeItems_merged.
  2: { intros i a b Ha Hb. apply isLater_lexGe.
       exact (StronglySorted_adjacent _
                (proj1 (mergeItems_merged sortSlice _ [])) i a b Ha Hb). }
  2: exact isLater_lexGe.
  2: { apply Forall_forall. intros i Hi. apply in_seq in Hi.
       apply uint8_value. pose proof (Byte.to_N_bounded count). lia. }
  rewrite (port_eta s), Ho, Hin.
  destruct (fetchData_reaches_records sortSlice descChunks desc count
              (concat (map (map RData) respChunks) ++ rest)
              (writeError s) (writes s) (sent s) (closed s)
              Hd Hd32 (Hw _) (Hw _) (Hw _)) as (buf & Hbuf & E).
  rewrite E. clear E.
  rewrite <- Hn, Nat2Z.id.
  destruct (recordsLoop_run respChunks responses Hr Hr9 0 0 [] buf None rest
              (writeError s) (S (S (S (writes s))))
              (sent s ++ [[xaa]; [xa4]; [xa2]]) (closed s) Hbuf
              (fun k _ => Hw _)) as (buf' & _ & E).
  rewrite Nat.add_0_r in E. change (Z.of_nat 0) with 0 in E.
  unfold bind at 1. rewrite E. clear E.
  cbn [recordsLoop ret afterRecords app bind Close].
  eexists. split; [reflexivity|].
  cbn [sent incoming closed openError writeError writes].
  rewrite <- app_assoc. repeat split.
Qed.


(* ------------------------------------------------------------------ *)
(** *** What a return of [getData] guarantees *)

Lemma getData_done (buf : list byte) (size : Z) (s : port) n err buf' s' :
  getData buf size s = Done (n, err, buf') s' ->
  err = None /\ size <= n /\ exists used, incoming s = used ++ incoming s'.
Proof.
  unfold getData. intros H.
  apply getDataLoop_done in H as (He & Hs & _ & Hu). auto.
Qed.

Lemma Write_done (q : list byte) (s : port) err s' :
  Write q s = Done err s' ->
  (err = None \/ exists msg, err = Some (PortError msg)) /\
  incoming s' = incoming s.
Proof.
  unfold Write. destruct (writeError s (writes s)) as [msg|];
    intros H; injection H as <- <-; simpl; eauto.
Qed.

Lemma recordsLoop_done (todo : nat) :
  forall i items buf s items' err s',
    recordsLoop todo i items buf s = Done (items', err) s' ->
    err = None \/ exists msg, err = Some (PortError msg).
Proof.
  induction todo as [|todo IH]; intros i items buf s items' err s' H.
  - injection H as _ <- _. now left.
  - cbn [recordsLoop] in H. unfold bind at 1 in H.
    destruct (Write _ s) as [e s1| |] eqn:W; try discriminate.
    apply Write_done in W as [[->|[msg ->]] _].
    + unfold bind at 1 in H.
      destruct (getData buf 9 s1) as [[[n e] b] s2| |]; try discriminate.
      eapply IH. exact H.
    + injection H as _ <- _. right. now exists msg.
Qed.

Lemma Write_sent (q : list byte) (s s' : port) :
  Write q s = Done None s' -> sent s' = sent s ++ [q].
Proof.
  unfold Write. destruct (writeError s (writes s));
    intros H; [discriminate|]. injection H as <-. reflexivity.
Qed.

Lemma getDataLoop_keeps (s : port) (evs : list readEvent) :
  forall (size t : Z) (b : list byte) n err b' s',
    0 <= t <= Z.of_nat (length b) ->
    getDataLoop s evs size t b = Done (n, err, b') s' ->
    length b' = length b /\ sent s' = sent s.
Proof.
  induction evs as [|ev evs IH]; intros size t b n err b' s' Ht H;
    simpl in H; destruct (t <? size).
  - discriminate.
  - injection H as _ _ <- <-. now split.
  - destruct ev as [bs|msg]; [|discriminate].
    assert (Hg : (Z.to_nat t +
                  length (firstn (length b - Z.to_nat t) bs)
                  <= length b)%nat)
      by (rewrite length_firstn; lia).
    apply IH in H.
    + now rewrite store_length in H by exact Hg.
    + rewrite store_length by exact Hg. lia.
  - injection H as _ _ <- <-. now split.
Qed.

Lemma getData_keeps (buf : list byte) (size : Z) (s : port) n err buf' s' :
  getData buf size s = Done (n, err, buf') s' ->
  length buf' = length buf /\ sent s' = sent s.
Proof.
  unfold getData. intros H. eapply getDataLoop_keeps; [|exact H]. lia.
Qed.

(** Reading a single byte, seen read by read: after any number of
    reads of nothing, one read delivers bytes, and what it delivers
    (up to the room in the buffer) is the count returned. *)
Lemma getDataLoop_one_exact (s : port) (evs : list readEvent) :
  forall (b : list byte) n err b' s',
    (0 < length b)%nat ->
    getDataLoop s evs 1 0 b = Done (n, err, b') s' ->
    exists zeros bs,
      evs = zeros ++ RData bs :: incoming s' /\
      Forall (fun ev => ev = RData []) zeros /\
      n = Z.of_nat (length (firstn (length b) bs)) /\ 1 <= n.
Proof.
  induction evs as [|ev evs IH]; intros b n err b' s' Hb H;
    cbn [getDataLoop] in H;
    replace (0 <? 1) with true in H by reflexivity.
  - discriminate.
  - destruct ev as [bs|msg]; [|discriminate].
    change (Z.to_nat 0) with 0%nat in H. rewrite Nat.sub_0_r in H.
    destruct bs as [|c bs].
    + rewrite firstn_nil in H. cbn [length Z.of_nat Z.add] in H.
      rewrite store_nil in H.
      apply IH in H as (zeros & bs' & -> & Hz & Hn & H1); [|exact Hb].
      exists (RData [] :: zeros), bs'. repeat split; auto.
    + set (got := firstn (length b) (c :: bs)) in *.
      assert (Hg : (1 <= length got)%nat).
      { unfold got. rewrite length_firstn. simpl length. lia. }
      set (k := length got) in *.
      assert (E : getDataLoop s evs 1 (0 + Z.of_nat k) (store b 0 got) =
                  Done (0 + Z.of_nat k, None, store b 0 got)
                       (mkPort (openError s) evs (writeError s)
                               (writes s) (sent s) (closed s))).
      { destruct evs; cbn [getDataLoop];
          (replace (0 + Z.of_nat k <? 1) with false
            by (symmetry; apply Z.ltb_ge; lia)); reflexivity. }
      rewrite E in H. injection H as <- _ _ <-.
      exists [], (c :: bs). cbn [app incoming].
      repeat split; auto; lia.
Qed.

(** C10: a return of [getData] carries no error and a byte count of at
    least [size]; and when [fetchData] answers "no measurement found",
    it is the read of the count phase that did it: after the count
    request was sent, [getData] was called for one byte, the reads it
    made before the last delivered nothing, and its last read delivered
    two bytes or more, more than the one byte still needed. *)
Theorem getData_count_at_least_size (s : port) :
  (forall buf size n err buf' s',
      getData buf size s = Done (n, err, buf') s' ->
      err = None /\ size <= n) /\
  (forall sortSlice items s',
      fetchData sortSlice s = Done (items, Some errNoMeasurement) s' ->
      exists (counting : port) (buf buf' : list byte) (n : Z)
             (zeros : list readEvent) (bs : list byte),
        sent counting = sent s ++ [[xaa]; [xa4]; [xa2]] /\
        (exists used, incoming s = used ++ incoming counting) /\
        length buf = 128%nat /\
        getData buf 1 counting = Done (n, None, buf') s' /\
        incoming counting = zeros ++ RData bs :: incoming s' /\
        Forall (fun ev => ev = RData []) zeros /\
        n = Z.of_nat (length (firstn 128 bs)) /\
        2 <= n /\ (2 <= length bs)%nat).
Proof.
  split.
  - intros buf size n err buf' s' H.
    apply getData_done in H as (He & Hs & _). auto.
  - intros sortSlice items s' H.
    unfold fetchData in H. unfold bind at 1 in H.
    cbn [OpenPort] in H.
    destruct (openError s); [discriminate|]. cbn [option_map] in H.
    unfold bind at 1 in H.
    destruct (Write [xaa] s) as [e s1| |] eqn:W1; try discriminate.
    pose proof W1 as W1'.
    apply Write_done in W1' as [[->|[msg ->]] I1]; [|discriminate].
    apply Write_sent in W1.
    unfold bind at 1 in H.
    destruct (getData _ 1 s1) as [[[n1 e1] b1] s2| |] eqn:G1;
      try discriminate.
    pose proof (getData_keeps _ _ _ _ _ _ _ G1) as [L1 S1].
    apply getData_done in G1 as (-> & _ & u1 & U1).
    destruct ((n1 =? 1) && Byte.eqb (nth 0 b1 x00) x55);
      [|discriminate].
    unfold bind at 1 in H.
    destruct (Write [xa4] s2) as [e s3| |] eqn:W2; try discriminate.
    pose proof W2 as W2'.
    apply Write_done in W2' as [[->|[msg ->]] I2]; [|discriminate].
    apply Write_sent in W2.
    unfold bind at 1 in H.
    destruct (getData b1 32 s3) as [[[n2 e2] b2] s4| |] eqn:G2;
      try discriminate.
    pose proof (getData_keeps _ _ _ _ _ _ _ G2) as [L2 S2].
    apply getData_done in G2 as (_ & _ & u2 & U2).
    unfold bind at 1 in H.
    destruct (Write [xa2] s4) as [e s5| |] eqn:W3; try discriminate.
    pose proof W3 as W3'.
    apply Write_done in W3' as [[->|[msg ->]] I3]; [|discriminate].
    apply Write_sent in W3.
    unfold bind at 1 in H.
    destruct (getData b2 1 s5) as [[[n3 e3] b3] s6| |] eqn:G3;
      try discriminate.
    pose proof G3 as G3'.
    apply getData_done in G3' as (-> & Hn3 & _).
    assert (Lb2 : length b2 = 128%nat)
      by (rewrite L2, L1; apply repeat_length).
    pose proof G3 as G3''. unfold getData in G3''.
    apply getDataLoop_one_exact in G3''
      as (zeros & bs & Hin & Hz & Hn & H1); [|lia].
    rewrite Lb2 in Hn.
    destruct (Z.eqb_spec n3 1) as [->|Hne].
    + (* the record phase: its errors come from the port *)
      unfold bind at 1 in H.
      destruct (recordsLoop _ 0 [] b3 s6) as [[its e] s7| |] eqn:R;
        try discriminate.
      apply recordsLoop_done in R as [->|[msg ->]]; discriminate.
    + injection H as _ <-.
      exists s5, b2, b3, n3, zeros, bs.
      split.
      { rewrite W3, S2, W2, S1, W1, <- !app_assoc. reflexivity. }
      split.
      { exists (u1 ++ u2). rewrite <- I1, U1, <- I2, U2, <- I3.
        now rewrite app_assoc. }
      split; [exact Lb2|]. split; [exact G3|].
      split; [exact Hin|]. split; [exact Hz|]. split; [exact Hn|].
      split; [lia|].
      pose proof (firstn_le_length 128 bs).
      assert (length (firstn 128 bs) <= length bs)%nat
        by (rewrite length_firstn; apply Nat.le_min_r).
      lia.
Qed.

(* ------------------------------------------------------------------ *)
(** *** The sample session *)

Lemma fetchData_decodes_witness :
  let r1 := mkMeasurement 0 120 80 60 6 1 8 30 2016 in
  let r2 := mkMeasurement 0 130 85 70 6 2 9 0 2016 in
  exists s',
    fetchData insertionSort (samplePort allWritesOk) =
      Done ([r2; r1], None) s' /\
    sent s' = [[xaa]; [xa4]; [xa2]; [xa3; x01]; [xa3; x02]] /\
    incoming s' = [] /\ closed s' = true.
Proof.
  intros r1 r2.
  destruct (fetchData_decodes insertionSort (samplePort allWritesOk)
              sampleDescChunks sampleDesc x02
              sampleRespChunks sampleResponses [])
    as [(s' & E & Hs & Hi & Hc) _].
  - reflexivity.
  - reflexivity.
  - split; [reflexivity | repeat constructor; discriminate].
  - reflexivity.
  - repeat constructor; discriminate.
  - repeat constructor.
  - reflexivity.
  - reflexivity.
  - exists s'. repeat split; assumption.
Defined.



(** A failing read does not return at all: [getData] ends the process
    in [log.Fatal]. *)
Lemma getData_read_error_exits (buf : list byte) (size : Z) (s : port)
      (msg : string) (later : list readEvent) :
  0 < size -> incoming s = RErr msg :: later ->
  getData buf size s = Exit (PortError msg).
Proof.
  intros Hs Hin. unfold getData. rewrite Hin. cbn [getDataLoop].
  now replace (0 <? size) with true by (symmetry; apply Z.ltb_lt; lia).
Qed.

Lemma getData_count_at_least_size_witness :
  (@None error = None /\ 1 <= 2) /\
  exists (counting : port) (buf buf' : list byte) (n : Z)
         (zeros : list readEvent) (bs : list byte),
    sent counting = sent twoCountBytesPort ++ [[xaa]; [xa4]; [xa2]] /\
    (exists used, incoming twoCountBytesPort = used ++ incoming counting) /\
    length buf = 128%nat /\
    getData buf 1 counting =
      Done (n, None, buf')
           (mkPort None [] allWritesOk 3 [[xaa]; [xa4]; [xa2]] false) /\
    incoming counting = zeros ++ [RData bs] /\
    Forall (fun ev => ev = RData []) zeros /\
    n = Z.of_nat (length (firstn 128 bs)) /\
    2 <= n /\ (2 <= length bs)%nat.
Proof.
  split.
  - apply (proj1 (getData_count_at_least_size
                    (mkPort None [RData [x02; x00]] allWritesOk 3 [] false))
                 (repeat x00 128) 1 2 None
                 (store (repeat x00 128) 0 [x02; x00])
                 (mkPort None [] allWritesOk 3 [] false)).
    reflexivity.
  - apply (proj2 (getData_count_at_least_size twoCountBytesPort)
                 insertionSort []
                 (mkPort None [] allWritesOk 3 [[xaa]; [xa4]; [xa2]] false)).
    reflexivity.
Defined.

(** A read of zero bytes during the count phase only makes the loop
    read again. *)
Example empty_read_is_retried :
  match fetchData insertionSort
          (mkPort None [RData [x55]; RData sampleDesc; RData []; RData [x00]]
                  allWritesOk 0 [] false)
  with
  | Done (items, err) _ => items = [] /\ err = None
  | _ => False
  end.
Proof. vm_compute. split; reflexivity. Qed.

(* ================================================================== *)
(** * Further properties *)
(* ================================================================== *)

(* ------------------------------------------------------------------ *)
(** *** More on [mergeItems] *)

Lemma ins_absent_perm (l : list measurement) (m : measurement) :
  ~ In m l -> Permutation (ins l m) (m :: l).
Proof.
  induction l as [|x l IH]; simpl; intros Hm; [reflexivity|].
  destruct (isLater x m); [|reflexivity].
  destruct (measurement_eqb x m) eqn:E.
  - apply measurement_eqb_eq in E. tauto.
  - rewrite IH by tauto. apply perm_swap.
Qed.

Lemma fold_insert_present (xs acc : list measurement) :
  merged acc -> (forall x, In x xs -> In x acc) ->
  fold_left insertIfMissing xs acc = acc.
Proof.
  intros [Hs Hn]. induction xs as [|x xs IH]; intros Hin; simpl.
  - reflexivity.
  - rewrite insertIfMissing_ins, ins_present.
    + apply IH. intros y Hy. apply Hin. now right.
    + exact Hs.
    + apply Hin. now left.
Qed.

Lemma precedes_before (l : list measurement) (a b : measurement) :
  precedes l a b -> before l a b.
Proof.
  induction 1 as [a b l Hb | x a b l _ (l1 & l2 & l3 & E)].
  - apply in_split in Hb as (l2 & l3 & ->). now exists [], l2, l3.
  - exists (x :: l1), l2, l3. simpl. now f_equal.
Qed.

Lemma precedes_ins (l : list measurement) (m a b : measurement) :
  precedes l a b -> precedes (ins l m) a b.
Proof.
  induction 1 as [a b l Hb | x a b l Hp IH]; simpl.
  - destruct (isLater a m); [destruct (measurement_eqb a m)|].
    + now constructor.
    + constructor. now apply ins_keeps.
    + apply precedes_later. now constructor.
  - destruct (isLater x m); [destruct (measurement_eqb x m)|].
    + now apply precedes_later.
    + now apply precedes_later.
    + now do 2 apply precedes_later.
Qed.

Lemma ins_after (l : list measurement) (m a : measurement) :
  StronglySorted laterR l -> In a l -> ~ In m l -> isLater a m = true ->
  precedes (ins l m) a m.
Proof.
  induction 1 as [|x l Hs IH Hx]; simpl; intros Ha Hm La; [tauto|].
  rewrite Forall_forall in Hx.
  destruct (isLater x m) eqn:L.
  - destruct (measurement_eqb x m) eqn:E;
      [apply measurement_eqb_eq in E; tauto|].
    destruct Ha as [->|Ha].
    + constructor. apply ins_adds.
    + apply precedes_later. apply IH; tauto.
  - exfalso. destruct Ha as [->|Ha]; [congruence|].
    assert (isLater x m = true)
      by (eapply isLater_trans; [apply Hx; exact Ha | exact La]).
    congruence.
Qed.

Lemma tied_isLater (a b : measurement) : tied a b -> isLater a b = true.
Proof.
  unfold tied, stamp. intros E. injection E as E1 E2 E3 E4 E5.
  apply isLater_lexGe. unfold stamp. simpl. lia.
Qed.

Section MergeMore.

Variable sortSlice : sorter.
Hypothesis sortSlice_perm :
  forall less l, Permutation (sortSlice less l) l.

Lemma sortSlice_nil (less : measurement -> measurement -> bool) :
  sortSlice less [] = [].
Proof. apply Permutation_nil. symmetry. apply sortSlice_perm. Qed.

Lemma sortSlice_In (less : measurement -> measurement -> bool)
      (l : list measurement) (x : measurement) :
  In x (sortSlice less l) <-> In x l.
Proof.
  split; apply Permutation_in;
    [apply sortSlice_perm | symmetry; apply sortSlice_perm].
Qed.

(** X1: a record is in the merged collection exactly when it is in one
    of the two inputs: merging neither loses nor invents records. *)
Theorem mergeItems_members (newItems oldItems : list measurement)
        (y : measurement) :
  In y (mergeItems sortSlice newItems oldItems) <->
  In y newItems \/ In y oldItems.
Proof.
  unfold mergeItems. rewrite !fold_insert_In, !sortSlice_In.
  simpl. tauto.
Qed.

(** X2: the merged collection has as many records as the two inputs
    have distinct records together. *)
Theorem mergeItems_length (newItems oldItems : list measurement) :
  length (mergeItems sortSlice newItems oldItems) =
  length (nodup measurement_eq_dec (newItems ++ oldItems)).
Proof.
  apply Permutation_length, NoDup_Permutation.
  - apply mergeItems_merged.
  - apply NoDup_nodup.
  - intros x. rewrite nodup_In, in_app_iff.
    unfold mergeItems. rewrite !fold_insert_In, !sortSlice_In.
    simpl. tauto.
Qed.

(** X3: old records that the new collection already holds change
    nothing: the result is the new collection merged alone. *)
Theorem mergeItems_known_old (newItems oldItems : list measurement) :
  (forall x, In x oldItems -> In x newItems) ->
  mergeItems sortSlice newItems oldItems = mergeItems sortSlice newItems [].
Proof.
  intros Hsub. unfold mergeItems. rewrite sortSlice_nil. cbn [fold_left].
  apply fold_insert_present.
  - apply fold_insert_merged, merged_nil.
  - intros x Hx. apply fold_insert_In. left.
    apply sortSlice_In. apply Hsub. now apply sortSlice_In in Hx.
Qed.

(** X4: exchanging the two inputs gives the same records, and the same
    list when no two records of the result share a minute. *)
Theorem mergeItems_swap (A B : list measurement) :
  Permutation (mergeItems sortSlice A B) (mergeItems sortSlice B A) /\
  (NoDup (map stamp (mergeItems sortSlice A B)) ->
   mergeItems sortSlice A B = mergeItems sortSlice B A).
Proof.
  assert (Hp : Permutation (mergeItems sortSlice A B)
                           (mergeItems sortSlice B A)).
  { apply NoDup_Permutation; try apply mergeItems_merged.
    intros x. unfold mergeItems.
    rewrite !fold_insert_In, !sortSlice_In. simpl. tauto. }
  split; [exact Hp|]. intros Hst.
  apply sorted_perm_unique; try apply mergeItems_merged; [exact Hp|].
  intros a b Ha Hb Lab Lba.
  apply (NoDup_map_inj stamp (mergeItems sortSlice A B)); auto.
  now apply isLater_antisym_stamp.
Qed.

(** X5: among records of the same minute, those of the new collection
    come before those that only the old collection holds. *)
Theorem mergeItems_new_before_old (newItems oldItems : list measurement)
        (a b : measurement) :
  In a newItems -> In b oldItems -> ~ In b newItems -> tied a b ->
  before (mergeItems sortSlice newItems oldItems) a b.
Proof.
  intros Ha Hb Hnb Ht. apply precedes_before. unfold mergeItems.
  set (R := fold_left insertIfMissing (sortSlice isLater newItems) []).
  assert (HR : merged R) by apply fold_insert_merged, merged_nil.
  assert (HaR : In a R).
  { apply fold_insert_In. left. now apply sortSlice_In. }
  assert (HbR : ~ In b R).
  { intros H. apply fold_insert_In in H as [H|[]].
    now apply sortSlice_In in H. }
  assert (Hb' : In b (sortSlice isLater oldItems))
    by now apply sortSlice_In.
  clearbody R. revert R HR HaR HbR.
  induction (sortSlice isLater oldItems) as [|x xs IH];
    intros R HR HaR HbR; [destruct Hb'|].
  cbn [fold_left]. rewrite insertIfMissing_ins.
  assert (HR' : merged (ins R x))
    by (destruct HR; split; [now apply ins_sorted | now apply ins_NoDup]).
  destruct (in_dec measurement_eq_dec b (ins R x)) as [Hin|Hout].
  - (* [b] enters the result with [x] *)
    assert (x = b) by (apply ins_In in Hin as [E|E]; [auto | tauto]).
    subst x.
    assert (P : precedes (ins R b) a b).
    { destruct HR. apply ins_after; auto. now apply tied_isLater. }
    clear - P. revert P. generalize (ins R b).
    induction xs as [|y ys IHy]; intros l P; [exact P|].
    cbn [fold_left]. apply IHy. rewrite insertIfMissing_ins.
    now apply precedes_ins.
  - destruct Hb' as [->|Hb']; [exfalso; apply Hout, ins_adds|].
    apply IH; auto. now apply ins_keeps.
Qed.

End MergeMore.

(** X6: on a collection that is sorted and free of duplicates,
    [insertIfMissing] returns the collection itself when the record is
    there, and otherwise the collection with the record added once; the
    result is sorted and free of duplicates again. *)
Theorem insertIfMissing_merged (l : list measurement) (m : measurement) :
  merged l ->
  (In m l -> insertIfMissing l m = l) /\
  (~ In m l -> Permutation (insertIfMissing l m) (m :: l)) /\
  merged (insertIfMissing l m).
Proof.
  intros [Hs Hn]. rewrite insertIfMissing_ins. repeat split.
  - now apply ins_present.
  - apply ins_absent_perm.
  - now apply ins_sorted.
  - now apply ins_NoDup.
Qed.

(* ------------------------------------------------------------------ *)
(** *** Loading several files *)

Lemma splitSemicolon_nonempty (s : string) : splitSemicolon s <> [].
Proof.
  destruct s as [|c s]; simpl; [discriminate|].
  destruct (Ascii.eqb c ";"); [discriminate|].
  destruct (splitSemicolon s); discriminate.
Qed.

(** Joining the pieces with semicolons gives the string back. *)
Lemma splitSemicolon_concat (s : string) :
  String.concat ";" (splitSemicolon s) = s.
Proof.
  induction s as [|c s IH]; [reflexivity|]. simpl.
  destruct (Ascii.eqb_spec c ";"%char) as [->|Hc].
  - pose proof (splitSemicolon_nonempty s) as Hne.
    destruct (splitSemicolon s) as [|p ps]; [congruence|].
    cbn [String.concat]. cbn [String.concat] in IH.
    destruct ps; simpl in *; now rewrite IH.
  - pose proof (splitSemicolon_nonempty s) as Hne.
    destruct (splitSemicolon s) as [|p ps]; [congruence|].
    cbn [String.concat] in *.
    destruct ps; simpl in *; now rewrite <- IH.
Qed.

Section LoadingFacts.

Variable sortSlice : sorter.
Variable loadFromJSONFile : string -> list measurement * option error.

Lemma loadLoop_merged (names : list string) (items : list measurement) :
  merged items ->
  merged (fst (loadLoop sortSlice loadFromJSONFile names items)).
Proof.
  revert items. induction names as [|f names IH]; intros items Hm; simpl.
  - exact Hm.
  - destruct (String.eqb f EmptyString); [now apply IH|].
    destruct (loadFromJSONFile f) as [records [e|]]; [exact Hm|].
    apply IH, mergeItems_merged.
Qed.

(** X7: whatever the files hold, and whether or not one of them fails
    to load, the collection [loadFromJSONFiles] returns is sorted
    latest first and has no duplicates. *)
Theorem loadFromJSONFiles_merged (files : string) :
  merged (fst (loadFromJSONFiles sortSlice loadFromJSONFile files)).
Proof. apply loadLoop_merged, merged_nil. Qed.

Hypothesis sortSlice_perm :
  forall less l, Permutation (sortSlice less l) l.

Lemma loadLoop_ok (names : list string) :
  forall (items r : list measurement),
    loadLoop sortSlice loadFromJSONFile names items = (r, None) ->
    allLoad loadFromJSONFile names /\
    (forall x, In x r <-> In x items \/ inSomeFile loadFromJSONFile names x).
Proof.
  induction names as [|f names IH]; intros items r H; simpl in H.
  - injection H as <-. split; [intros f []|].
    intros x. split; [tauto|]. intros [H|(f & [] & _)]. exact H.
  - destruct (String.eqb_spec f EmptyString) as [->|Hf].
    + apply IH in H as [Hall Hin]. split.
      * intros g [<-|Hg] Hne; [congruence | now apply Hall].
      * intros x. rewrite Hin. split; intros [Hx|(g & Hg & Hne & Hx)];
          try tauto; right; exists g.
        -- split; [now right | tauto].
        -- destruct Hg as [<-|Hg]; [congruence | tauto].
    + destruct (loadFromJSONFile f) as [records [e|]] eqn:L;
        [discriminate|].
      apply IH in H as [Hall Hin]. split.
      * intros g [<-|Hg] Hne; [now rewrite L | now apply Hall].
      * intros x. rewrite Hin, (mergeItems_In sortSlice sortSlice_perm).
        split.
        -- intros [[Hx|Hx]|(g & Hg & Hne & Hx)]; try tauto.
           ++ right. exists f. rewrite L. simpl. tauto.
           ++ right. exists g. simpl. tauto.
        -- intros [Hx|(g & [<-|Hg] & Hne & Hx)]; try tauto.
           ++ rewrite L in Hx. simpl in Hx. tauto.
           ++ right. exists g. tauto.
Qed.

Lemma loadLoop_error (names : list string) :
  forall (items r : list measurement) (e : error),
    loadLoop sortSlice loadFromJSONFile names items = (r, Some e) ->
    exists before_ f after_,
      names = before_ ++ f :: after_ /\ f <> EmptyString /\
      snd (loadFromJSONFile f) = Some e /\ allLoad loadFromJSONFile before_ /\
      (forall x, In x r <-> In x items \/ inSomeFile loadFromJSONFile before_ x).
Proof.
  induction names as [|f names IH]; intros items r e H; simpl in H.
  - discriminate.
  - destruct (String.eqb_spec f EmptyString) as [->|Hf].
    + apply IH in H as (b & g & a & -> & Hg & Lg & Hall & Hin).
      exists (EmptyString :: b), g, a. repeat split; auto.
      * intros h [<-|Hh] Hne; [congruence | now apply Hall].
      * intros Hx. apply Hin in Hx as [Hx|(h & Hh & Hne & Hx)];
          [tauto|]. right. exists h. simpl. tauto.
      * intros [Hx|(h & [<-|Hh] & Hne & Hx)]; [apply Hin; tauto | congruence |].
        apply Hin. right. exists h. tauto.
    + destruct (loadFromJSONFile f) as [records [e'|]] eqn:L.
      * injection H as <- <-. exists [], f, names.
        repeat split; auto.
        -- now rewrite L.
        -- intros h [].
        -- intros [Hx|(h & [] & _)]. exact Hx.
      * apply IH in H as (b & g & a & -> & Hg & Lg & Hall & Hin).
        exists (f :: b), g, a. repeat split; auto.
        -- intros h [<-|Hh] Hne; [now rewrite L | now apply Hall].
        -- intros Hx. apply Hin in Hx as [Hx|(h & Hh & Hne & Hx)].
           ++ apply (mergeItems_In sortSlice sortSlice_perm) in Hx
                as [Hx|Hx]; [|tauto].
              right. exists f. rewrite L. simpl. tauto.
           ++ right. exists h. simpl. tauto.
        -- intros [Hx|(h & [<-|Hh] & Hne & Hx)]; apply Hin.
           ++ left. apply (mergeItems_In sortSlice sortSlice_perm).
              tauto.
           ++ left. apply (mergeItems_In sortSlice sortSlice_perm).
              rewrite L in Hx. simpl in Hx. tauto.
           ++ right. exists h. tauto.
Qed.

(** X8: when [loadFromJSONFiles] returns no error, every file named
    between the semicolons was loaded, and the collection returned
    holds exactly the records of those files. *)
Theorem loadFromJSONFiles_ok (files : string) (r : list measurement) :
  loadFromJSONFiles sortSlice loadFromJSONFile files = (r, None) ->
  allLoad loadFromJSONFile (splitSemicolon files) /\
  (forall x, In x r <-> inSomeFile loadFromJSONFile (splitSemicolon files) x).
Proof.
  intros H. apply loadLoop_ok in H as [Hall Hin]. split; [exact Hall|].
  intros x. rewrite Hin. simpl. tauto.
Qed.

(** X9: when [loadFromJSONFiles] returns an error, it is the error of
    the first file that fails to load, and the collection returned with
    it holds exactly the records of the files named before that one. *)
Theorem loadFromJSONFiles_error (files : string) (r : list measurement)
        (e : error) :
  loadFromJSONFiles sortSlice loadFromJSONFile files = (r, Some e) ->
  exists before_ f after_,
    splitSemicolon files = before_ ++ f :: after_ /\
    f <> EmptyString /\ snd (loadFromJSONFile f) = Some e /\
    allLoad loadFromJSONFile before_ /\
    (forall x, In x r <-> inSomeFile loadFromJSONFile before_ x).
Proof.
  intros H. apply loadLoop_error in H
    as (b & f & a & E & Hf & Lf & Hall & Hin).
  exists b, f, a. repeat split; auto.
  - intros Hx. apply Hin in Hx as [[]|Hx]. exact Hx.
  - intros Hx. apply Hin. now right.
Qed.

End LoadingFacts.

(* ------------------------------------------------------------------ *)
(** *** The limit and the chain of filters *)

Lemma intOfUint_small (u : N) :
  (u < 2 ^ 63)%N -> intOfUint u = Z.of_N u.
Proof.
  intros H. unfold intOfUint, wrap64.
  assert (0 <= Z.of_N u < 2 ^ 63) by (change (2 ^ 63) with (Z.of_N (2 ^ 63)); lia).
  rewrite Z.mod_small; lia.
Qed.

Lemma intOfUint_large (u : N) :
  (2 ^ 63 <= u < 2 ^ 64)%N -> intOfUint u < 0.
Proof.
  intros H. unfold intOfUint, wrap64.
  assert (2 ^ 63 <= Z.of_N u < 2 ^ 64)
    by (change (2 ^ 63) with (Z.of_N (2 ^ 63));
        change (2 ^ 64) with (Z.of_N (2 ^ 64)); lia).
  replace (Z.of_N u + 2 ^ 63) with ((Z.of_N u - 2 ^ 63) + 1 * 2 ^ 64) by lia.
  rewrite Z.mod_add by lia. rewrite Z.mod_small; lia.
Qed.

(** X10: a limit of 0 leaves the collection as it is; a limit below
    2^63 keeps the first [limit] records (all of them when there are
    fewer); a limit of 2^63 or more makes the slice expression panic,
    whatever the collection, because [int] of it is negative. *)
Theorem limitItems_cases (limit : N) (items : list measurement) :
  (limit < 2 ^ 64)%N ->
  Z.of_nat (length items) < 2 ^ 63 ->
  limitItems limit items =
  if (limit <? 2 ^ 63)%N
  then Some (if (limit =? 0)%N then items
             else firstn (N.to_nat limit) items)
  else None.
Proof.
  intros H64 Hlen. unfold limitItems.
  destruct (N.ltb_spec limit (2 ^ 63)) as [Hs|Hl].
  - rewrite intOfUint_small by exact Hs.
    destruct (N.eqb_spec limit 0) as [->|Hz]; [reflexivity|].
    replace (0 <? limit)%N with true by (symmetry; apply N.ltb_lt; lia).
    cbn [andb]. rewrite Z.gtb_ltb.
    destruct (Z.ltb_spec (Z.of_N limit) (Z.of_nat (length items))).
    + replace (limit <=? N.of_nat (length items))%N with true
        by (symmetry; apply N.leb_le; lia).
      reflexivity.
    + rewrite firstn_all2 by lia. reflexivity.
  - pose proof (intOfUint_large limit (conj Hl H64)).
    replace (0 <? limit)%N with true by (symmetry; apply N.ltb_lt; lia).
    cbn [andb]. rewrite Z.gtb_ltb.
    replace (intOfUint limit <? Z.of_nat (length items)) with true
      by (symmetry; apply Z.ltb_lt; lia).
    replace (limit <=? N.of_nat (length items))%N with false;
      [reflexivity|].
    symmetry. apply N.leb_gt.
    assert (Z.of_N (N.of_nat (length items)) < Z.of_N limit); [|lia].
    rewrite nat_N_Z.
    assert (2 ^ 63 <= Z.of_N limit)
      by (change (2 ^ 63) with (Z.of_N (2 ^ 63)); lia).
    lia.
Qed.

Lemma StronglySorted_app_inv {A : Type} (R : A -> A -> Prop) (p q : list A) :
  StronglySorted R (p ++ q) -> StronglySorted R p /\ StronglySorted R q.
Proof.
  induction p as [|x p IH]; simpl; intros H.
  - split; [constructor | exact H].
  - inversion H as [|? ? Hs Hx]; subst. destruct (IH Hs) as [Hp Hq].
    split; [|exact Hq]. constructor; [exact Hp|].
    apply Forall_app in Hx. tauto.
Qed.

Lemma merged_app_inv (p q : list measurement) :
  merged (p ++ q) -> merged p /\ merged q.
Proof.
  intros [Hs Hn]. apply StronglySorted_app_inv in Hs as [Hp Hq].
  repeat split; auto.
  - eapply NoDup_app_remove_r. exact Hn.
  - eapply NoDup_app_remove_l. exact Hn.
Qed.

Lemma merged_firstn (n : nat) (l : list measurement) :
  merged l -> merged (firstn n l).
Proof.
  intros H. rewrite <- (firstn_skipn n l) in H.
  now apply merged_app_inv in H.
Qed.

Lemma merged_skipn (n : nat) (l : list measurement) :
  merged l -> merged (skipn n l).
Proof.
  intros H. rewrite <- (firstn_skipn n l) in H.
  now apply merged_app_inv in H.
Qed.

Lemma merged_filter (p : measurement -> bool) (l : list measurement) :
  merged l -> merged (filter p l).
Proof.
  intros [Hs Hn]. split; [|now apply NoDup_filter].
  clear Hn. induction Hs as [|x l Hs IH Hx]; simpl; [constructor|].
  destruct (p x); [|exact IH]. constructor; [exact IH|].
  rewrite Forall_forall in *. intros y Hy.
  apply filter_In in Hy. now apply Hx.
Qed.

Lemma incl_firstn {A : Type} (n : nat) (l : list A) : incl (firstn n l) l.
Proof.
  intros x Hx. rewrite <- (firstn_skipn n l). apply in_or_app. now left.
Qed.

Lemma incl_skipn {A : Type} (n : nat) (l : list A) : incl (skipn n l) l.
Proof.
  intros x Hx. rewrite <- (firstn_skipn n l). apply in_or_app. now right.
Qed.

Lemma dateFilter_part (timeDate : Z -> Z -> Z -> Z -> Z -> Z)
      (startDate endDate : option Z) (items : list measurement) :
  incl (dateFilter timeDate startDate endDate items) items /\
  (merged items -> merged (dateFilter timeDate startDate endDate items)).
Proof.
  unfold dateFilter, fromDateLoop, toDateLoop.
  destruct startDate as [s|], endDate as [e|];
    repeat match goal with
           | |- context [findIndex ?p ?l ?i] => destruct (findIndex p l i)
           end;
    split; intros;
    repeat first [ apply merged_skipn | apply merged_firstn
                 | assumption | apply incl_refl
                 | (eapply incl_tran; [apply incl_skipn|])
                 | (eapply incl_tran; [apply incl_firstn|]) ].
Qed.

(** X11: date range, time of day and limit, applied in the order of
    [main] to a collection that is sorted and free of duplicates,
    return a collection that is still sorted and free of duplicates and
    holds only records of the input. *)
Theorem filterItems_merged (timeDate : Z -> Z -> Z -> Z -> Z -> Z)
        (startDate endDate : option Z)
        (fromTime toTime : option simpleTime) (limit : N)
        (items r : list measurement) :
  merged items ->
  filterItems timeDate startDate endDate fromTime toTime limit items
    = Some r ->
  merged r /\ incl r items /\ (length r <= length items)%nat.
Proof.
  intros Hm H. unfold filterItems in H.
  destruct (dateFilter_part timeDate startDate endDate items) as [Hi Hd].
  specialize (Hd Hm).
  set (d := dateFilter timeDate startDate endDate items) in *.
  rewrite timeFilter_kept_eq in H.
  set (t := filter _ d) in *.
  assert (Ht : merged t) by now apply merged_filter.
  assert (Hit : incl t items).
  { intros x Hx. apply Hi. unfold t in Hx. now apply filter_In in Hx. }
  assert (Hr : merged r /\ incl r items).
  { unfold limitItems in H.
    destruct (_ && _) in H; [destruct (_ <=? _)%N in H|];
      try discriminate; injection H as <-.
    - split; [now apply merged_firstn|].
      eapply incl_tran; [apply incl_firstn | exact Hit].
    - now split. }
  destruct Hr as [Hr1 Hr2]. split; [exact Hr1|]. split; [exact Hr2|].
  apply NoDup_incl_length; [apply Hr1 | exact Hr2].
Qed.

(* ------------------------------------------------------------------ *)
(** *** More on the WHO classification *)

Ltac who_cases :=
  unfold WHOClass, sysGrade, diaGrade, IsolatedSystolicHypertension,
    BPOptimal, BPNormal, BPHighNormal, BPMildHypertension,
    BPModerateHypertension, BPSevereHypertension;
  repeat match goal with
         | |- context [?x <? ?y] =>
             destruct (Z.ltb_spec x y); try (exfalso; lia)
         | |- context [?x >=? ?y] =>
             destruct (Z.geb_spec x y); try (exfalso; lia)
         end;
  cbn [andb fst snd].

Lemma WHOClass_grades (m : measurement) :
  fst (WHOClass m) = Z.max (sysGrade (Systolic m)) (diaGrade (Diastolic m)).
Proof. who_cases; lia. Qed.

Lemma sysGrade_monotone (x y : Z) : x <= y -> sysGrade x <= sysGrade y.
Proof. intros H. who_cases; lia. Qed.

Lemma diaGrade_monotone (x y : Z) : x <= y -> diaGrade x <= diaGrade y.
Proof. intros H. who_cases; lia. Qed.

(** X12: the category is one of the six and the flag is 0 or 1, so the
    two table look-ups of [WHOClassString] are always in range. *)
Theorem WHOClass_in_range (m : measurement) :
  0 <= fst (WHOClass m) <= 5 /\ 0 <= snd (WHOClass m) <= 1 /\
  (Z.to_nat (fst (WHOClass m)) < length WHOPressureClassification)%nat /\
  (Z.to_nat (snd (WHOClass m)) < length WHOPressureFlag)%nat.
Proof.
  cbn [length WHOPressureClassification WHOPressureFlag].
  who_cases; repeat split; lia.
Qed.

(** X13: the category is the worse of the two grades: the one the
    systolic value alone would give and the one the diastolic value
    alone would give. *)
Theorem WHOClass_max_grade (m : measurement) :
  fst (WHOClass m) = Z.max (sysGrade (Systolic m)) (diaGrade (Diastolic m)).
Proof. apply WHOClass_grades. Qed.

(** X14: a reading that is no lower on both values never gets a better
    category. *)
Theorem WHOClass_monotone (a b : measurement) :
  Systolic a <= Systolic b -> Diastolic a <= Diastolic b ->
  fst (WHOClass a) <= fst (WHOClass b).
Proof.
  intros Hs Hd. rewrite !WHOClass_grades.
  pose proof (sysGrade_monotone _ _ Hs).
  pose proof (diaGrade_monotone _ _ Hd).
  lia.
Qed.

(** X15: the Isolated Systolic Hypertension flag never comes with
    Optimal, Normal or High-Normal, and a flagged reading is graded by
    its systolic value alone. *)
Theorem WHOClass_flagged (m : measurement) :
  snd (WHOClass m) = IsolatedSystolicHypertension ->
  BPMildHypertension <= fst (WHOClass m) /\
  fst (WHOClass m) = sysGrade (Systolic m).
Proof. who_cases; intros; split; lia. Qed.

(* ------------------------------------------------------------------ *)
(** *** The rows of [displayWHOClassStats] *)

Lemma wrap64_small (z : Z) : - 2 ^ 63 <= z < 2 ^ 63 -> wrap64 z = z.
Proof. intros H. unfold wrap64. rewrite Z.mod_small; lia. Qed.

Lemma WHOClass_bounds (m : measurement) : 0 <= fst (WHOClass m) <= 5.
Proof. who_cases; lia. Qed.

Lemma countClass_cons (m : measurement) (items : list measurement) (c : Z) :
  countClass (m :: items) c =
  (if c =? fst (WHOClass m) then 1 else 0) + countClass items c.
Proof.
  unfold countClass. cbn [filter]. rewrite (Z.eqb_sym c).
  destruct (fst (WHOClass m) =? c); cbn [length]; lia.
Qed.

Lemma countClass_range (items : list measurement) (c : Z) :
  0 <= countClass items c <= Z.of_nat (length items).
Proof.
  unfold countClass. pose proof (filter_length_le
    (fun m => fst (WHOClass m) =? c) items). lia.
Qed.

Lemma countClass_total (items : list measurement) :
  countClass items 0 + countClass items 1 + countClass items 2 +
  countClass items 3 + countClass items 4 + countClass items 5 =
  Z.of_nat (length items).
Proof.
  induction items as [|m items IH]; [reflexivity|].
  rewrite !countClass_cons. pose proof (WHOClass_bounds m) as B.
  cbn [length]. rewrite Nat2Z.inj_succ.
  repeat match goal with
         | |- context [?x =? ?y] => destruct (Z.eqb_spec x y)
         end; lia.
Qed.

Section ClassStatsFacts.

Context {F : Float64}.

Lemma fold_classStep_classes (items : list measurement) :
  forall (sum : float64) (classes : Z -> Z),
    (forall c, 0 <= classes c) ->
    (forall c, classes c + Z.of_nat (length items) < 2 ^ 63) ->
    forall c,
      snd (fold_left classStep items (sum, classes)) c =
      classes c + countClass items c.
Proof.
  induction items as [|m items IH]; intros sum classes H0 Hb c.
  - cbn. unfold countClass. simpl. lia.
  - cbn [fold_left]. unfold classStep at 2.
    destruct (WHOClass m) as [k flag] eqn:W.
    rewrite IH.
    + rewrite countClass_cons, W. cbn [fst]. unfold increment.
      specialize (H0 c). specialize (Hb c). cbn [length] in Hb.
      destruct (c =? k); [rewrite wrap64_small|]; lia.
    + intros c'. unfold increment. specialize (H0 c'). specialize (Hb c').
      cbn [length] in Hb.
      destruct (c' =? k); [rewrite wrap64_small|]; lia.
    + intros c'. unfold increment. specialize (H0 c'). specialize (Hb c').
      cbn [length] in Hb.
      destruct (c' =? k); [rewrite wrap64_small|]; lia.
Qed.

Lemma percent_range (count n : Z) :
  0 < n -> 0 <= count <= n -> n * 100 < 2 ^ 63 ->
  let p := Z.quot (wrap64 (count * 100)) n in
  0 <= p <= 100 /\ n * p <= count * 100 < n * p + n.
Proof.
  intros Hn Hc Hb p. subst p.
  rewrite wrap64_small by nia.
  rewrite Z.quot_div_nonneg by nia.
  pose proof (Z.div_mod (count * 100) n ltac:(lia)) as E.
  pose proof (Z.mod_pos_bound (count * 100) n Hn) as M.
  split; [|lia]. split.
  - apply Z.div_pos; nia.
  - apply Z.div_le_upper_bound; nia.
Qed.

(** X16: when [displayWHOClassStats] prints its rows, there are six of
    them, their counts add up to the number of records, every
    percentage lies between 0 and 100, and the percentages add up to
    at least 95 and at most 100. *)
Theorem displayWHOClassStats_rows (items : list measurement)
        (label : string) (avg : float64) (rows : list (string * Z * Z)) :
  displayWHOClassStats items = Some (label, avg, rows) ->
  Z.of_nat (length items) * 100 < 2 ^ 63 ->
  length rows = 6%nat /\
  rowCounts rows = Z.of_nat (length items) /\
  Forall (fun row => 0 <= snd row <= 100) rows /\
  95 <= rowPercents rows <= 100.
Proof.
  intros H Hb. unfold displayWHOClassStats in H.
  pose proof (fold_classStep_classes items fzero noClasses) as Hc.
  destruct (fold_left classStep items (fzero, noClasses)) as [sum classes].
  cbn [snd] in Hc.
  assert (Hcount : forall c, classes c = countClass items c).
  { intros c. rewrite Hc; unfold noClasses; intros; lia. }
  clear Hc.
  destruct (_ && _) in H; [|discriminate].
  destruct (Z.eqb_spec (Z.of_nat (length items)) 0) as [|Hn];
    [discriminate|].
  injection H as _ _ <-.
  set (n := Z.of_nat (length items)) in *.
  assert (0 < n) by lia.
  unfold classRows. cbn [length WHOPressureClassification seq map].
  cbn [rowCounts rowPercents fold_right fst snd Z.of_nat].
  rewrite !Hcount.
  pose proof (countClass_total items) as T. fold n in T.
  pose proof (countClass_range items 0) as R0.
  pose proof (countClass_range items 1) as R1.
  pose proof (countClass_range items 2) as R2.
  pose proof (countClass_range items 3) as R3.
  pose proof (countClass_range items 4) as R4.
  pose proof (countClass_range items 5) as R5.
  fold n in R0, R1, R2, R3, R4, R5.
  change (Z.pos (Pos.of_succ_nat 0)) with 1.
  change (Z.pos (Pos.of_succ_nat 1)) with 2.
  change (Z.pos (Pos.of_succ_nat 2)) with 3.
  change (Z.pos (Pos.of_succ_nat 3)) with 4.
  change (Z.pos (Pos.of_succ_nat 4)) with 5.
  destruct (percent_range (countClass items 0) n) as [P0 Q0]; auto.
  destruct (percent_range (countClass items 1) n) as [P1 Q1]; auto.
  destruct (percent_range (countClass items 2) n) as [P2 Q2]; auto.
  destruct (percent_range (countClass items 3) n) as [P3 Q3]; auto.
  destruct (percent_range (countClass items 4) n) as [P4 Q4]; auto.
  destruct (percent_range (countClass items 5) n) as [P5 Q5]; auto.
  cbv zeta in *.
  split; [reflexivity|]. split; [lia|]. split.
  - repeat constructor; cbn [snd]; lia.
  - nia.
Qed.

End ClassStatsFacts.

(* ------------------------------------------------------------------ *)
(** *** [median] and [average] do not depend on the order *)

Lemma insertInt_perm (x : Z) (l : list Z) :
  Permutation (insertInt x l) (x :: l).
Proof.
  induction l as [|y l IH]; simpl; [reflexivity|].
  destruct (x <=? y); [reflexivity|]. rewrite IH. apply perm_swap.
Qed.

Lemma sortInts_perm (l : list Z) : Permutation (sortInts l) l.
Proof.
  induction l as [|x l IH]; simpl; [reflexivity|].
  rewrite insertInt_perm. now constructor.
Qed.

Lemma insertInt_sorted (x : Z) (l : list Z) :
  StronglySorted Z.le l -> StronglySorted Z.le (insertInt x l).
Proof.
  induction 1 as [|y l Hs IH Hy]; simpl.
  - repeat constructor.
  - destruct (Z.leb_spec x y).
    + constructor; [now constructor|].
      constructor; [lia|]. eapply Forall_impl; [|exact Hy].
      intros z Hz. simpl in Hz. lia.
    + constructor; [exact IH|].
      apply Forall_forall. intros z Hz.
      apply (Permutation_in _ (insertInt_perm x l)) in Hz.
      destruct Hz as [<-|Hz]; [lia|].
      rewrite Forall_forall in Hy. now apply Hy.
Qed.

Lemma sortInts_sorted (l : list Z) : StronglySorted Z.le (sortInts l).
Proof.
  induction l as [|x l IH]; simpl; [constructor|].
  now apply insertInt_sorted.
Qed.

Lemma sorted_ints_unique (l1 l2 : list Z) :
  StronglySorted Z.le l1 -> StronglySorted Z.le l2 ->
  Permutation l1 l2 -> l1 = l2.
Proof.
  intros H1. revert l2.
  induction H1 as [|a l1 Hs1 IH Ha]; intros l2 H2 Hp.
  - now apply Permutation_nil in Hp.
  - destruct H2 as [|b l2 Hs2 Hb].
    + symmetry in Hp. now apply Permutation_nil in Hp.
    + assert (E : a = b).
      { assert (Hab : In a (b :: l2))
          by (eapply Permutation_in; [exact Hp | now left]).
        assert (Hba : In b (a :: l1))
          by (eapply Permutation_in; [symmetry; exact Hp | now left]).
        rewrite Forall_forall in Ha, Hb.
        destruct Hab as [->|Hab]; [reflexivity|].
        destruct Hba as [->|Hba]; [reflexivity|].
        specialize (Ha _ Hba). specialize (Hb _ Hab). simpl in *. lia. }
      subst b. f_equal. apply IH; [exact Hs2|].
      eapply Permutation_cons_inv. exact Hp.
Qed.

Lemma sortInts_order (l l' : list Z) :
  Permutation l l' -> sortInts l = sortInts l'.
Proof.
  intros Hp. apply sorted_ints_unique; try apply sortInts_sorted.
  rewrite !sortInts_perm. exact Hp.
Qed.

(** X17: [median] does not depend on the order of the records. *)
Theorem median_order (items items' : list measurement) :
  Permutation items items' -> median items = median items'.
Proof.
  intros Hp. unfold median.
  rewrite (Permutation_length Hp).
  rewrite (sortInts_order _ _ (Permutation_map Systolic Hp)).
  rewrite (sortInts_order _ _ (Permutation_map Diastolic Hp)).
  rewrite (sortInts_order _ _ (Permutation_map Pulse Hp)).
  reflexivity.
Qed.

Lemma at_In (l : list Z) (i : Z) :
  0 <= i < Z.of_nat (length l) -> In (at_ l i) l.
Proof. intros H. unfold at_. apply nth_In. lia. Qed.

Lemma intMedian_between (l : list Z) (lo hi : Z) :
  l <> [] -> - 2 ^ 62 <= lo -> hi < 2 ^ 62 ->
  Forall (fun v => lo <= v <= hi) l ->
  lo <= intMedian l <= hi.
Proof.
  intros Hne Hlo Hhi Hall. unfold intMedian.
  set (len := Z.of_nat (length l)).
  assert (Hlen : 0 < len) by (destruct l; [congruence | unfold len; simpl; lia]).
  rewrite Forall_forall in Hall.
  assert (Hq : 0 <= Z.quot len 2 < len).
  { rewrite Z.quot_div_nonneg by lia.
    split; [apply Z.div_pos; lia | apply Z.div_lt_upper_bound; lia]. }
  pose proof (Hall _ (at_In l _ Hq)) as Hm.
  destruct (Z.eqb_spec (Z.rem len 2) 0) as [He|Ho]; [|exact Hm].
  assert (Hq1 : 0 <= Z.quot len 2 - 1 < len).
  { pose proof (Z.quot_rem' len 2). lia. }
  pose proof (Hall _ (at_In l _ Hq1)) as Hm1.
  set (a := at_ l (Z.quot len 2)) in *.
  set (b := at_ l (Z.quot len 2 - 1)) in *.
  rewrite wrap64_small by lia.
  pose proof (Z.quot_rem' (a + b) 2) as E.
  destruct (Z_le_gt_dec 0 (a + b)) as [Hp|Hn].
  - pose proof (Z.rem_bound_pos (a + b) 2 Hp ltac:(lia)). lia.
  - pose proof (Z.rem_bound_pos_neg (a + b) 2 ltac:(lia) ltac:(lia)). lia.
Qed.

Lemma sortInts_Forall (P : Z -> Prop) (l : list Z) :
  Forall P l -> Forall P (sortInts l).
Proof.
  intros H. eapply Permutation_Forall; [|exact H].
  symmetry. apply sortInts_perm.
Qed.

Lemma sortInts_map_nonempty {A : Type} (f : A -> Z) (l : list A) :
  l <> [] -> sortInts (map f l) <> [].
Proof.
  intros Hne E. apply Hne.
  assert (L : length (sortInts (map f l)) = length l)
    by (rewrite (Permutation_length (sortInts_perm _)); apply length_map).
  rewrite E in L. destruct l; [reflexivity | discriminate].
Qed.

(** X18: each value of the median lies between the least and the
    greatest value of that field in the collection (for values that
    stay clear of the 64-bit limits). *)
Theorem median_between (items : list measurement) (lo hi : Z) :
  items <> [] -> - 2 ^ 62 <= lo -> hi < 2 ^ 62 ->
  (Forall (fun m => lo <= Systolic m <= hi) items ->
   lo <= Systolic (fst (median items)) <= hi) /\
  (Forall (fun m => lo <= Diastolic m <= hi) items ->
   lo <= Diastolic (fst (median items)) <= hi) /\
  (Forall (fun m => lo <= Pulse m <= hi) items ->
   lo <= Pulse (fst (median items)) <= hi).
Proof.
  intros Hne Hlo Hhi. unfold median.
  destruct (Z.eqb_spec (Z.of_nat (length items)) 0) as [E|_];
    [destruct items; [congruence | discriminate]|].
  cbn [fst withValues Systolic Diastolic Pulse].
  split; [|split]; intros Hall;
    (apply intMedian_between;
     [ now apply sortInts_map_nonempty | exact Hlo | exact Hhi
     | apply sortInts_Forall, Forall_map; exact Hall ]).
Qed.

(** X19: on an odd number of records each value of the median is the
    value of one of the records. *)
Theorem median_odd_is_value (items : list measurement) :
  Nat.odd (length items) = true ->
  In (Systolic (fst (median items))) (map Systolic items) /\
  In (Diastolic (fst (median items))) (map Diastolic items) /\
  In (Pulse (fst (median items))) (map Pulse items).
Proof.
  intros Hodd. unfold median.
  assert (Hlen : (0 < length items)%nat)
    by (destruct items; [discriminate | simpl; lia]).
  destruct (Z.eqb_spec (Z.of_nat (length items)) 0) as [E|_]; [lia|].
  cbn [fst withValues Systolic Diastolic Pulse].
  assert (G : forall f : measurement -> Z,
             In (intMedian (sortInts (map f items))) (map f items)).
  { intros f. apply (Permutation_in _ (sortInts_perm (map f items))).
    unfold intMedian.
    rewrite (Permutation_length (sortInts_perm _)), length_map.
    set (len := Z.of_nat (length items)).
    assert (Hr : Z.rem len 2 <> 0).
    { unfold len. rewrite Z.rem_mod_nonneg by lia.
      apply Nat.odd_spec in Hodd as [k Hk]. rewrite Hk.
      replace (Z.of_nat (2 * k + 1)) with (1 + Z.of_nat k * 2) by lia.
      rewrite Z.mod_add by lia. discriminate. }
    destruct (Z.eqb_spec (Z.rem len 2) 0); [contradiction|].
    apply at_In.
    rewrite (Permutation_length (sortInts_perm _)), length_map. fold len.
    rewrite Z.quot_div_nonneg by lia.
    split; [apply Z.div_pos; lia | apply Z.div_lt_upper_bound; lia]. }
  split; [|split]; apply G.
Qed.

Lemma wrap64_add_l (a b : Z) : wrap64 (wrap64 a + b) = wrap64 (a + b).
Proof.
  unfold wrap64. f_equal.
  replace ((a + 2 ^ 63) mod 2 ^ 64 - 2 ^ 63 + b + 2 ^ 63)
    with ((a + 2 ^ 63) mod 2 ^ 64 + b) by lia.
  rewrite Z.add_mod_idemp_l by lia. f_equal. lia.
Qed.

Lemma averageStep_comm (acc : measurement * Z) (a b : measurement) :
  averageStep (averageStep acc a) b = averageStep (averageStep acc b) a.
Proof.
  destruct acc as [am c]. unfold averageStep, withValues.
  cbn [Header Systolic Diastolic Pulse Month Day Hour Minute Year].
  rewrite !wrap64_add_l.
  replace (Systolic am + Systolic a + Systolic b)
    with (Systolic am + Systolic b + Systolic a) by lia.
  replace (Diastolic am + Diastolic a + Diastolic b)
    with (Diastolic am + Diastolic b + Diastolic a) by lia.
  replace (Pulse am + Pulse a + Pulse b)
    with (Pulse am + Pulse b + Pulse a) by lia.
  reflexivity.
Qed.

Lemma fold_left_order {A B : Type} (f : A -> B -> A) (l l' : list B) :
  (forall acc a b, f (f acc a) b = f (f acc b) a) ->
  Permutation l l' -> forall acc, fold_left f l acc = fold_left f l' acc.
Proof.
  intros Hc Hp. induction Hp; intros acc; simpl.
  - reflexivity.
  - apply IHHp.
  - now rewrite Hc.
  - now rewrite IHHp1.
Qed.

(** X20: [average] does not depend on the order of the records,
    whatever the floating-point arithmetic: the sums it divides are
    integer sums. *)
Theorem average_order {F : Float64} (items items' : list measurement) :
  Permutation items items' -> average items = average items'.
Proof.
  intros Hp. unfold average.
  now rewrite (fold_left_order averageStep items items' averageStep_comm Hp).
Qed.

(* ------------------------------------------------------------------ *)
(** *** More on [getData] *)

Lemma delivered_nonneg (evs : list readEvent) : 0 <= delivered evs.
Proof.
  induction evs as [|[bs|msg] evs IH]; simpl; lia.
Qed.

Lemma getDataLoop_blocks (s : port) (evs : list readEvent) :
  forall (size t : Z) (b : list byte),
    Forall isData evs -> 0 <= t -> t + delivered evs < size ->
    getDataLoop s evs size t b = Blocked.
Proof.
  induction evs as [|ev evs IH]; intros size t b Hd Ht Hlt; simpl in *.
  - now replace (t <? size) with true by (symmetry; apply Z.ltb_lt; lia).
  - apply Forall_cons_iff in Hd as [Hev Hd].
    destruct ev as [bs|msg]; [|destruct Hev].
    pose proof (delivered_nonneg evs).
    replace (t <? size) with true by (symmetry; apply Z.ltb_lt; lia).
    apply IH; [exact Hd | lia |].
    pose proof (firstn_le_length (length b - Z.to_nat t) bs).
    rewrite length_firstn. lia.
Qed.

(** X21: when the port reports no error and all it will ever deliver
    is fewer than [size] bytes, [getData] never returns. *)
Theorem getData_blocks (buf : list byte) (size : Z) (s : port) :
  Forall isData (incoming s) -> delivered (incoming s) < size ->
  getData buf size s = Blocked.
Proof.
  intros Hd Hlt. unfold getData. apply getDataLoop_blocks; auto; lia.
Qed.

Lemma getDataLoop_frame (s : port) (evs : list readEvent) :
  forall (size t : Z) (b : list byte) n err b' s',
    0 <= t <= Z.of_nat (length b) ->
    getDataLoop s evs size t b = Done (n, err, b') s' ->
    t <= n <= Z.of_nat (length b) /\ length b' = length b /\
    sent s' = sent s /\ writes s' = writes s /\ closed s' = closed s.
Proof.
  induction evs as [|ev evs IH]; intros size t b n err b' s' Ht H;
    simpl in H; destruct (t <? size).
  - discriminate.
  - injection H as <- _ <- <-. simpl. repeat split; lia.
  - destruct ev as [bs|msg]; [|discriminate].
    set (got := firstn (length b - Z.to_nat t) bs) in *.
    assert (Hg : (Z.to_nat t + length got <= length b)%nat).
    { unfold got. rewrite length_firstn. lia. }
    apply IH in H.
    + rewrite store_length in H by exact Hg.
      destruct H as (H1 & H2 & H3). repeat split; try tauto; lia.
    + rewrite store_length by exact Hg. lia.
  - injection H as <- _ <- <-. simpl. repeat split; lia.
Qed.

(** X22: a return of [getData] never reports more bytes than the buffer
    holds, leaves the buffer at its length, and has written nothing to
    the port nor closed it. *)
Theorem getData_frame (buf : list byte) (size : Z) (s : port)
        n err buf' s' :
  getData buf size s = Done (n, err, buf') s' ->
  0 <= n <= Z.of_nat (length buf) /\ length buf' = length buf /\
  sent s' = sent s /\ writes s' = writes s /\ closed s' = closed s.
Proof.
  unfold getData. intros H. apply getDataLoop_frame in H; [|lia].
  destruct H as (H1 & H2). split; [lia | exact H2].
Qed.

(* ------------------------------------------------------------------ *)
(** *** More on [fetchData] *)

Lemma getData_first_read (s : port) (bs : list byte)
      (rest : list readEvent) (b : list byte) :
  incoming s = RData bs :: rest -> bs <> [] -> length b = 128%nat ->
  getData b 1 s =
  Done (Z.of_nat (length (firstn 128 bs)), None, store b 0 (firstn 128 bs))
       (mkPort (openError s) rest (writeError s)
               (writes s) (sent s) (closed s)).
Proof.
  intros Hin Hne Hb. unfold getData. rewrite Hin. cbn [getDataLoop].
  replace (0 <? 1) with true by reflexivity.
  change (Z.to_nat 0) with 0%nat. rewrite Nat.sub_0_r, Hb.
  set (got := firstn 128 bs).
  assert (Hg : (0 < length got)%nat).
  { unfold got. destruct bs; [congruence | simpl; lia]. }
  destruct rest as [|ev rest]; cbn [getDataLoop];
    (replace (0 + Z.of_nat (length got) <? 1) with false
      by (symmetry; apply Z.ltb_ge; lia)); reflexivity.
Qed.

(** X23: when the first answer of the device is anything but the single
    byte 0x55, [fetchData] returns the handshake error with no record,
    has sent the handshake request only, and has closed the port. *)
Theorem fetchData_handshake_failure (sortSlice : sorter) (s : port)
        (bs : list byte) (rest : list readEvent) :
  openError s = None -> writeError s (writes s) = None ->
  incoming s = RData bs :: rest -> bs <> [] -> bs <> [x55] ->
  fetchData sortSlice s =
  Done ([], Some errHandshake)
       (mkPort None rest (writeError s) (S (writes s))
               (sent s ++ [[xaa]]) true).
Proof.
  intros Ho Hw Hin Hne H55.
  rewrite (port_eta s) at 1. rewrite Ho.
  unfold fetchData. unfold bind at 1. cbn [OpenPort openError option_map].
  unfold bind at 1. rewrite Write_ok by exact Hw.
  unfold bind at 1.
  rewrite (getData_first_read _ bs rest); [ | exact Hin | exact Hne | reflexivity].
  cbn [openError writeError writes sent closed incoming].
  set (got := firstn 128 bs).
  replace ((Z.of_nat (length got) =? 1) &&
           Byte.eqb (nth 0 (store (repeat x00 128) 0 got) x00) x55)
    with false; [reflexivity|].
  symmetry. apply andb_false_iff.
  destruct (Z.eqb_spec (Z.of_nat (length got)) 1) as [E|E]; [|now left].
  right. assert (Hg : length got = 1%nat) by lia.
  assert (Hbs : bs = got).
  { unfold got in *. rewrite length_firstn in Hg.
    symmetry. apply firstn_all2. lia. }
  destruct got as [|c [|? ?]]; try discriminate.
  rewrite store_front by (simpl; lia). cbn [nth].
  destruct (Byte.eqb c x55) eqn:Ec; [|reflexivity].
  apply Byte.byte_dec_bl in Ec. congruence.
Qed.

Lemma Write_closed (q : list byte) (s : port) err s' :
  Write q s = Done err s' -> closed s' = closed s.
Proof.
  unfold Write. destruct (writeError s (writes s));
    intros H; injection H as <- <-; reflexivity.
Qed.

Lemma getData_closed (buf : list byte) (size : Z) (s : port) r s' :
  getData buf size s = Done r s' -> closed s' = closed s.
Proof.
  destruct r as [[n err] b]. unfold getData. intros H.
  destruct (Z_le_gt_dec size 0) as [Hs|Hs].
  - destruct (incoming s); cbn [getDataLoop] in H;
      (replace (0 <? size) with false in H
        by (symmetry; apply Z.ltb_ge; lia));
      injection H as _ _ _ <-; reflexivity.
  - revert H. generalize 0 at 1. generalize buf.
    induction (incoming s) as [|ev evs IH]; intros b0 t H;
      cbn [getDataLoop] in H; destruct (t <? size).
    + discriminate.
    + injection H as _ _ _ <-. reflexivity.
    + destruct ev; [|discriminate]. eapply IH. exact H.
    + injection H as _ _ _ <-. reflexivity.
Qed.

Lemma recordsLoop_closed (todo : nat) :
  forall i items buf s r s',
    recordsLoop todo i items buf s = Done r s' -> closed s' = closed s.
Proof.
  induction todo as [|todo IH]; intros i items buf s r s' H.
  - injection H as _ <-. reflexivity.
  - cbn [recordsLoop] in H. unfold bind at 1 in H.
    destruct (Write _ s) as [e s1| |] eqn:W; try discriminate.
    apply Write_closed in W. destruct e as [e|].
    + injection H as _ <-. exact W.
    + unfold bind at 1 in H.
      destruct (getData buf 9 s1) as [[[n e] b] s2| |] eqn:G;
        try discriminate.
      apply getData_closed in G. apply IH in H. congruence.
Qed.

(** X24: [fetchData] closes the port when it succeeds and when the
    handshake fails; on every other error return (a failed write, "no
    measurement found") it leaves the port as it found it.  A success
    returns a collection that is sorted and free of duplicates. *)
Theorem fetchData_closes (sortSlice : sorter) (s : port)
        (items : list measurement) (err : option error) (s' : port) :
  fetchData sortSlice s = Done (items, err) s' ->
  match err with
  | None => closed s' = true /\ merged items
  | Some e =>
      (e = errHandshake /\ items = [] /\ closed s' = true) \/
      ((e = errNoMeasurement \/ exists msg, e = PortError msg) /\
       closed s' = closed s)
  end.
Proof.
  intros H. unfold fetchData in H. unfold bind at 1 in H.
  cbn [OpenPort] in H.
  destruct (openError s) as [msg|]; cbn [option_map] in H.
  { injection H as <- <- <-. right. split; [right; eauto | reflexivity]. }
  unfold bind at 1 in H.
  destruct (Write [xaa] s) as [e s1| |] eqn:W1; try discriminate.
  pose proof (Write_closed _ _ _ _ W1) as C1.
  apply Write_done in W1 as [[->|[msg ->]] _].
  2:{ injection H as <- <- <-. right. split; [right; eauto | exact C1]. }
  unfold bind at 1 in H.
  destruct (getData _ 1 s1) as [[[n1 e1] b1] s2| |] eqn:G1;
    try discriminate.
  pose proof (getData_closed _ _ _ _ _ G1) as C2.
  apply getData_done in G1 as (-> & _ & _).
  destruct ((n1 =? 1) && Byte.eqb (nth 0 b1 x00) x55).
  2:{ injection H as <- <- <-. left. repeat split. }
  unfold bind at 1 in H.
  destruct (Write [xa4] s2) as [e s3| |] eqn:W2; try discriminate.
  pose proof (Write_closed _ _ _ _ W2) as C3.
  apply Write_done in W2 as [[->|[msg ->]] _].
  2:{ injection H as <- <- <-. right. split; [right; eauto | congruence]. }
  unfold bind at 1 in H.
  destruct (getData b1 32 s3) as [[[n2 e2] b2] s4| |] eqn:G2;
    try discriminate.
  pose proof (getData_closed _ _ _ _ _ G2) as C4.
  unfold bind at 1 in H.
  destruct (Write [xa2] s4) as [e s5| |] eqn:W3; try discriminate.
  pose proof (Write_closed _ _ _ _ W3) as C5.
  apply Write_done in W3 as [[->|[msg ->]] _].
  2:{ injection H as <- <- <-. right. split; [right; eauto | congruence]. }
  unfold bind at 1 in H.
  destruct (getData b2 1 s5) as [[[n3 e3] b3] s6| |] eqn:G3;
    try discriminate.
  pose proof (getData_closed _ _ _ _ _ G3) as C6.
  apply getData_done in G3 as (-> & _ & _).
  destruct (n3 =? 1).
  2:{ injection H as <- <- <-. right. split; [now left | congruence]. }
  unfold bind at 1 in H.
  destruct (recordsLoop _ 0 [] b3 s6) as [[its e] s7| |] eqn:R;
    try discriminate.
  pose proof (recordsLoop_closed _ _ _ _ _ _ _ R) as C7.
  apply recordsLoop_done in R as [->|[msg ->]].
  - cbn in H. injection H as <- <- <-. split; [reflexivity|].
    apply mergeItems_merged.
  - injection H as <- <- <-. right. split; [right; eauto | congruence].
Qed.

Lemma byteAt_range (buf : list byte) (i : nat) : 0 <= byteAt buf i <= 255.
Proof.
  unfold byteAt. pose proof (Byte.to_N_bounded (nth i buf x00)). lia.
Qed.

Lemma decode_deviceRange (buf : list byte) : deviceRange (decode buf).
Proof.
  unfold deviceRange, decode.
  cbn [Header Systolic Diastolic Pulse Month Day Hour Minute Year].
  pose proof (byteAt_range buf 0). pose proof (byteAt_range buf 1).
  pose proof (byteAt_range buf 2). pose proof (byteAt_range buf 3).
  pose proof (byteAt_range buf 4). pose proof (byteAt_range buf 5).
  pose proof (byteAt_range buf 6). pose proof (byteAt_range buf 7).
  pose proof (byteAt_range buf 8). lia.
Qed.

Lemma recordsLoop_items (P : measurement -> Prop) (todo : nat) :
  (forall buf, P (decode buf)) ->
  forall i items buf s items' err s',
    recordsLoop todo i items buf s = Done (items', err) s' ->
    Forall P items -> Forall P items'.
Proof.
  intros HP. induction todo as [|todo IH];
    intros i items buf s items' err s' H Hall.
  - injection H as <- _ _. exact Hall.
  - cbn [recordsLoop] in H. unfold bind at 1 in H.
    destruct (Write _ s) as [e s1| |]; try discriminate.
    destruct e as [e|].
    + injection H as <- _ _. exact Hall.
    + unfold bind at 1 in H.
      destruct (getData buf 9 s1) as [[[n e] b] s2| |]; try discriminate.
      eapply IH; [exact H|].
      apply Forall_app. split; [exact Hall|]. constructor; [apply HP|constructor].
Qed.

(** X25: every record that [fetchData] returns, with or without an
    error, has the values device bytes can give: systolic and diastolic
    between 25 and 280, year between 2000 and 2255, the other fields
    between 0 and 255. *)
Theorem fetchData_deviceRange (sortSlice : sorter) (s : port)
        (items : list measurement) (err : option error) (s' : port) :
  (forall less l, Permutation (sortSlice less l) l) ->
  fetchData sortSlice s = Done (items, err) s' ->
  Forall deviceRange items.
Proof.
  intros Hperm H. unfold fetchData in H. unfold bind at 1 in H.
  cbn [OpenPort] in H.
  destruct (openError s) as [msg|]; cbn [option_map] in H.
  { injection H as <- _ _. constructor. }
  unfold bind at 1 in H.
  destruct (Write [xaa] s) as [e s1| |]; try discriminate.
  destruct e as [e|]; [injection H as <- _ _; constructor|].
  unfold bind at 1 in H.
  destruct (getData _ 1 s1) as [[[n1 e1] b1] s2| |]; try discriminate.
  destruct e1 as [e1|]; [injection H as <- _ _; constructor|].
  destruct ((n1 =? 1) && Byte.eqb (nth 0 b1 x00) x55);
    [|injection H as <- _ _; constructor].
  unfold bind at 1 in H.
  destruct (Write [xa4] s2) as [e s3| |]; try discriminate.
  destruct e as [e|]; [injection H as <- _ _; constructor|].
  unfold bind at 1 in H.
  destruct (getData b1 32 s3) as [[[n2 e2] b2] s4| |]; try discriminate.
  unfold bind at 1 in H.
  destruct (Write [xa2] s4) as [e s5| |]; try discriminate.
  destruct e as [e|]; [injection H as <- _ _; constructor|].
  unfold bind at 1 in H.
  destruct (getData b2 1 s5) as [[[n3 e3] b3] s6| |]; try discriminate.
  destruct e3 as [e3|]; [injection H as <- _ _; constructor|].
  destruct (n3 =? 1); [|injection H as <- _ _; constructor].
  unfold bind at 1 in H.
  destruct (recordsLoop _ 0 [] b3 s6) as [[its e] s7| |] eqn:R;
    try discriminate.
  apply (recordsLoop_items deviceRange _ decode_deviceRange) in R;
    [|constructor].
  destruct e as [e|].
  - injection H as <- _ _. exact R.
  - cbn in H. injection H as <- _ _.
    apply Forall_forall. intros x Hx. rewrite Forall_forall in R. apply R.
    unfold mergeItems in Hx. rewrite !fold_insert_In in Hx.
    destruct Hx as [Hx|[Hx|[]]].
    + apply (Permutation_in _ (Hperm _ _)) in Hx. destruct Hx.
    + apply (Permutation_in _ (Hperm _ _)) in Hx. exact Hx.
Qed.

Lemma byte_to_N_inj (a b : byte) :
  Z.of_N (Byte.to_N a) = Z.of_N (Byte.to_N b) -> a = b.
Proof.
  intros H. apply N2Z.inj in H.
  pose proof (Byte.of_to_N a) as Ha. rewrite H, Byte.of_to_N in Ha.
  congruence.
Qed.

(** X26: two nine-byte responses that decode to the same record are
    the same response: decoding loses nothing. *)
Theorem decode_injective (r1 r2 : list byte) :
  length r1 = 9%nat -> length r2 = 9%nat ->
  decode r1 = decode r2 -> r1 = r2.
Proof.
  intros L1 L2 H.
  do 10 (destruct r1 as [|? r1]; try discriminate).
  do 10 (destruct r2 as [|? r2]; try discriminate).
  unfold decode, byteAt in H. cbn [nth] in H.
  injection H as H0 H1 H2 H3 H4 H5 H6 H7 H8.
  apply Z.add_cancel_r in H1, H2, H8.
  repeat match goal with
         | E : Z.of_N _ = Z.of_N _ |- _ => apply byte_to_N_inj in E
         end.
  congruence.
Qed.

Lemma getDataLoop_exit (s : port) (evs : list readEvent) :
  forall size t b e,
    getDataLoop s evs size t b = Exit e ->
    exists msg, e = PortError msg /\ In (RErr msg) evs.
Proof.
  induction evs as [|ev evs IH]; intros size t b e H;
    simpl in H; destruct (t <? size); try discriminate.
  destruct ev as [bs|msg].
  - apply IH in H as (msg & -> & Hin). exists msg. split; [reflexivity|].
    now right.
  - injection H as <-. exists msg. split; [reflexivity | now left].
Qed.

Lemma Write_returns (q : list byte) (s : port) :
  exists err s', Write q s = Done err s'.
Proof. unfold Write. destruct (writeError s (writes s)); eauto. Qed.

Lemma recordsLoop_exit (todo : nat) :
  forall i items buf s e,
    recordsLoop todo i items buf s = Exit e ->
    exists msg, e = PortError msg /\ In (RErr msg) (incoming s).
Proof.
  induction todo as [|todo IH]; intros i items buf s e H;
    [discriminate|].
  cbn [recordsLoop] in H. unfold bind at 1 in H.
  destruct (Write_returns [xa3; uint8 (i + 1)] s) as (w & s1 & W).
  rewrite W in H.
  apply Write_done in W as [_ I1]. destruct w as [w|]; [discriminate|].
  unfold bind at 1 in H.
  destruct (getData buf 9 s1) as [[[n e'] b] s2|e'|] eqn:G;
    try discriminate.
  - apply getData_done in G as (_ & _ & used & U).
    apply IH in H as (msg & -> & Hin). exists msg. split; [reflexivity|].
    rewrite <- I1, U. apply in_or_app. now right.
  - injection H as <-. unfold getData in G.
    apply getDataLoop_exit in G as (msg & -> & Hin).
    exists msg. split; [reflexivity|]. now rewrite <- I1.
Qed.

(** X27: the only way [fetchData] ends the process is a read error of
    the port: the error logged by [log.Fatal] is one the port
    reported. *)
Theorem fetchData_exit_cause (sortSlice : sorter) (s : port) (e : error) :
  fetchData sortSlice s = Exit e ->
  exists msg, e = PortError msg /\ In (RErr msg) (incoming s).
Proof.
  intros H. unfold fetchData in H. unfold bind at 1 in H.
  cbn [OpenPort] in H.
  destruct (openError s) as [m|]; cbn [option_map] in H; [discriminate|].
  unfold bind at 1 in H.
  destruct (Write_returns [xaa] s) as (w & s1 & W1). rewrite W1 in H.
  apply Write_done in W1 as [_ I1]. destruct w as [w|]; [discriminate|].
  unfold bind at 1 in H.
  destruct (getData _ 1 s1) as [[[n1 e1] b1] s2|e1|] eqn:G1;
    try discriminate.
  2:{ injection H as <-. apply getDataLoop_exit in G1 as (msg & -> & Hin).
      exists msg. split; [reflexivity | now rewrite <- I1]. }
  apply getData_done in G1 as (-> & _ & u1 & U1).
  destruct ((n1 =? 1) && Byte.eqb (nth 0 b1 x00) x55); [|discriminate].
  unfold bind at 1 in H.
  destruct (Write_returns [xa4] s2) as (w & s3 & W2). rewrite W2 in H.
  apply Write_done in W2 as [_ I2]. destruct w as [w|]; [discriminate|].
  unfold bind at 1 in H.
  destruct (getData b1 32 s3) as [[[n2 e2] b2] s4|e2|] eqn:G2;
    try discriminate.
  2:{ injection H as <-. apply getDataLoop_exit in G2 as (msg & -> & Hin).
      exists msg. split; [reflexivity|].
      rewrite <- I1, U1, <- I2. apply in_or_app. now right. }
  apply getData_done in G2 as (_ & _ & u2 & U2).
  unfold bind at 1 in H.
  destruct (Write_returns [xa2] s4) as (w & s5 & W3). rewrite W3 in H.
  apply Write_done in W3 as [_ I3]. destruct w as [w|]; [discriminate|].
  assert (Hsub : forall ev, In ev (incoming s5) -> In ev (incoming s)).
  { intros ev Hev. rewrite <- I1, U1, <- I2, U2, <- I3.
    apply in_or_app. right. apply in_or_app. now right. }
  unfold bind at 1 in H.
  destruct (getData b2 1 s5) as [[[n3 e3] b3] s6|e3|] eqn:G3;
    try discriminate.
  2:{ injection H as <-. apply getDataLoop_exit in G3 as (msg & -> & Hin).
      exists msg. split; [reflexivity | now apply Hsub]. }
  apply getData_done in G3 as (-> & _ & u3 & U3).
  destruct (n3 =? 1); [|discriminate].
  unfold bind at 1 in H.
  destruct (recordsLoop _ 0 [] b3 s6) as [[its w] s7|e4|] eqn:R;
    try discriminate.
  - destruct w; discriminate.
  - injection H as <-. apply recordsLoop_exit in R as (msg & -> & Hin).
    exists msg. split; [reflexivity|]. apply Hsub. rewrite U3.
    apply in_or_app. now right.
Qed.

(* ------------------------------------------------------------------ *)
(** *** The first [mergeItems] *)

Lemma firstn_succ_nth {A : Type} (l : list A) (j : nat) (d : A) :
  (j < length l)%nat -> firstn (S j) l = firstn j l ++ [nth j l d].
Proof.
  revert j. induction l as [|x l IH]; intros j H; simpl in H; [lia|].
  destruct j as [|j]; [reflexivity|].
  cbn [firstn nth app]. f_equal. apply IH. lia.
Qed.

Lemma earlier_mergeLoop (newItems oldItems : list measurement) :
  forall (result : list measurement) (j : nat) r j',
    Earlier.mergeLoop newItems oldItems result j = (r, j') ->
    r = result ++ newItems /\ (j <= j')%nat /\
    (j' <= length oldItems \/ j' = j)%nat /\
    (forall x, In x (firstn j' oldItems) ->
               In x (firstn j oldItems) \/ In x newItems).
Proof.
  induction newItems as [|n rest IH]; intros result j r j' H;
    cbn [Earlier.mergeLoop] in H.
  - injection H as <- <-. rewrite app_nil_r. repeat split; auto.
  - destruct ((j + 1 <=? length oldItems)%nat &&
              measurement_eqb n (nth j oldItems zeroMeasurement)) eqn:C.
    + apply andb_true_iff in C as [Hj Hn].
      apply Nat.leb_le in Hj. apply measurement_eqb_eq in Hn.
      apply IH in H as (-> & Hle & Hb & Hin).
      rewrite <- app_assoc. repeat split; auto; try lia.
      intros x Hx. apply Hin in Hx as [Hx|Hx]; [|right; now right].
      rewrite (firstn_succ_nth _ _ zeroMeasurement) in Hx by lia.
      apply in_app_or in Hx as [Hx|[<-|[]]]; [now left|].
      right. left. exact Hn.
    + apply IH in H as (-> & Hle & Hb & Hin).
      rewrite <- app_assoc. repeat split; auto.
      intros x Hx. apply Hin in Hx as [Hx|Hx]; [now left|right; now right].
Qed.

(** X28: the first [mergeItems] returns the new collection as it is,
    followed by a tail of the old one; a record is in the result
    exactly when it is in one of the two inputs. *)
Theorem earlier_mergeItems_keeps_all (newItems oldItems : list measurement) :
  (exists j, (j <= length oldItems)%nat /\
             Earlier.mergeItems newItems oldItems =
             newItems ++ skipn j oldItems) /\
  (forall x, In x (Earlier.mergeItems newItems oldItems) <->
             In x newItems \/ In x oldItems).
Proof.
  unfold Earlier.mergeItems.
  destruct (Earlier.mergeLoop newItems oldItems [] 0) as [r j] eqn:L.
  apply earlier_mergeLoop in L as (-> & _ & Hb & Hin). cbn [app].
  assert (E : (if (j + 1 <=? length oldItems)%nat
               then newItems ++ skipn j oldItems else newItems) =
              newItems ++ skipn j oldItems).
  { destruct (Nat.leb_spec (j + 1) (length oldItems)); [reflexivity|].
    rewrite skipn_all2 by lia. now rewrite app_nil_r. }
  rewrite E. split.
  - exists (Nat.min j (length oldItems)). split; [lia|].
    destruct Hb as [Hb| ->]; [now rewrite Nat.min_l by lia|].
    reflexivity.
  - intros x. rewrite in_app_iff. split.
    + intros [Hx|Hx]; [now left|]. right. now apply incl_skipn in Hx.
    + intros [Hx|Hx]; [now left|].
      rewrite <- (firstn_skipn j oldItems) in Hx.
      apply in_app_or in Hx as [Hx|Hx]; [|now right].
      apply Hin in Hx as [[]|Hx]. now left.
Qed.

Lemma earlier_mergeLoop_past (newItems oldItems result : list measurement)
      (j : nat) :
  (length oldItems <= j)%nat ->
  Earlier.mergeLoop newItems oldItems result j = (result ++ newItems, j).
Proof.
  revert result. induction newItems as [|n rest IH]; intros result Hj;
    cbn [Earlier.mergeLoop].
  - now rewrite app_nil_r.
  - replace (j + 1 <=? length oldItems)%nat with false
      by (symmetry; apply Nat.leb_gt; lia).
    cbn [andb]. rewrite IH by exact Hj. now rewrite <- app_assoc.
Qed.

Lemma earlier_mergeLoop_same (more q : list measurement) :
  forall (p result : list measurement),
    Earlier.mergeLoop (q ++ more) (p ++ q) result (length p) =
    (result ++ q ++ more, length (p ++ q)).
Proof.
  induction q as [|x q IH]; intros p result.
  - rewrite app_nil_r. cbn [app]. apply earlier_mergeLoop_past. lia.
  - cbn [app Earlier.mergeLoop].
    replace (length p + 1 <=? length (p ++ x :: q))%nat with true
      by (symmetry; apply Nat.leb_le; rewrite length_app; simpl; lia).
    rewrite app_nth2, Nat.sub_diag by lia. cbn [nth andb].
    rewrite measurement_eqb_refl.
    specialize (IH (p ++ [x]) (result ++ [x])).
    rewrite <- !app_assoc in IH. cbn [app] in IH.
    rewrite length_app, Nat.add_comm in IH. exact IH.
Qed.

(** X29: when the new collection starts with the whole old collection
    (the device still holds what was saved, followed by later
    readings), the first [mergeItems] returns the new collection, with
    nothing repeated. *)
Theorem earlier_mergeItems_extends (oldItems more : list measurement) :
  Earlier.mergeItems (oldItems ++ more) oldItems = oldItems ++ more.
Proof.
  unfold Earlier.mergeItems.
  pose proof (earlier_mergeLoop_same more oldItems [] []) as E.
  cbn [app length] in E. rewrite E.
  replace (length oldItems + 1 <=? length oldItems)%nat with false
    by (symmetry; apply Nat.leb_gt; lia).
  reflexivity.
Qed.

(** Unlike the chronological merge, the first one can repeat a record:
    here the old collection holds [a] after a record the new one does
    not have. *)
Example earlier_mergeItems_repeats :
  let a := mkMeasurement 0 120 80 60 6 1 8 30 2016 in
  let b := mkMeasurement 0 130 85 70 6 2 9 0 2016 in
  Earlier.mergeItems [a] [b; a] = [a; b; a].
Proof. reflexivity. Qed.

(* ------------------------------------------------------------------ *)
(** *** The average classification of a single record *)

Lemma single_class_index (class flag : Z) :
  0 <= class <= 5 -> 0 <= flag <= 1 ->
  let sum := @fadd ieeeFloat64 fzero (ofInt class) in
  let sum := if flag =? IsolatedSystolicHypertension
             then fadd sum fhalf else sum in
  @toInt ieeeFloat64 (fadd fhalf (fdiv sum (ofInt 1))) = class + flag.
Proof.
  intros Hc Hf.
  assert (C : class = 0 \/ class = 1 \/ class = 2 \/ class = 3 \/
              class = 4 \/ class = 5) by lia.
  assert (G : flag = 0 \/ flag = 1) by lia.
  destruct C as [->|[->|[->|[->|[->| ->]]]]], G as [->| ->];
    vm_compute; reflexivity.
Qed.

(** X30: for a collection of one record, [displayWHOClassStats] panics
    on the look-up of the average classification exactly when the
    record is Severe Hypertension with the Isolated Systolic
    Hypertension flag, that is when systolic >= 180 and diastolic < 90:
    the index is then 6, one past the table. *)
Theorem displayWHOClassStats_single (m : measurement) :
  @displayWHOClassStats ieeeFloat64 [m] = None <->
  180 <= Systolic m /\ Diastolic m < 90.
Proof.
  unfold displayWHOClassStats. cbn [fold_left length]. unfold classStep.
  pose proof (WHOClass_bounds m) as Hc.
  assert (Hf : 0 <= snd (WHOClass m) <= 1)
    by (clear; who_cases; lia).
  assert (Hx : fst (WHOClass m) + snd (WHOClass m) = 6 <->
               180 <= Systolic m /\ Diastolic m < 90)
    by (clear; who_cases; lia).
  destruct (WHOClass m) as [class flag]. cbn [fst snd] in *.
  change (Z.of_nat 1) with 1.
  rewrite (single_class_index class flag Hc Hf).
  cbn [length WHOPressureClassification]. change (Z.of_nat 6) with 6.
  change (1 =? 0) with false. cbv iota. rewrite <- Hx.
  destruct (Z.leb_spec 0 (class + flag)), (Z.ltb_spec (class + flag) 6);
    cbn [andb]; split; intros; try discriminate; try reflexivity; lia.
Qed.

(* ------------------------------------------------------------------ *)
(** *** Instances of the statements above *)

Lemma mergeItems_members_witness :
  In reading1 (mergeItems insertionSort [reading2] [reading1]) <->
  In reading1 [reading2] \/ In reading1 [reading1].
Proof.
  exact (mergeItems_members insertionSort insertionSort_perm
           [reading2] [reading1] reading1).
Defined.

Lemma mergeItems_length_witness :
  length (mergeItems insertionSort [reading1; reading2] [reading2; reading3])
  = 3%nat.
Proof.
  exact (mergeItems_length insertionSort insertionSort_perm
           [reading1; reading2] [reading2; reading3]).
Defined.

Lemma mergeItems_known_old_witness :
  mergeItems insertionSort [reading1; reading2] [reading2] =
  mergeItems insertionSort [reading1; reading2] [].
Proof.
  apply (mergeItems_known_old insertionSort insertionSort_perm).
  simpl. tauto.
Defined.

Lemma mergeItems_swap_witness :
  mergeItems insertionSort [reading1] [reading2; reading3] =
  mergeItems insertionSort [reading2; reading3] [reading1].
Proof.
  apply (mergeItems_swap insertionSort insertionSort_perm).
  vm_compute. repeat constructor; simpl; intuition discriminate.
Defined.

Lemma mergeItems_new_before_old_witness :
  before (mergeItems insertionSort [reading2; reading1] [reading1'])
         reading1 reading1'.
Proof.
  apply (mergeItems_new_before_old insertionSort insertionSort_perm).
  - simpl. tauto.
  - simpl. tauto.
  - simpl. intuition discriminate.
  - reflexivity.
Defined.

Lemma insertIfMissing_merged_witness :
  (In reading1 [reading2; reading1] ->
   insertIfMissing [reading2; reading1] reading1 = [reading2; reading1]) /\
  (~ In reading3 [reading2; reading1] ->
   Permutation (insertIfMissing [reading2; reading1] reading3)
               (reading3 :: [reading2; reading1])).
Proof.
  assert (Hm : merged [reading2; reading1]).
  { split; repeat constructor; simpl; intuition discriminate. }
  split.
  - apply (insertIfMissing_merged _ reading1 Hm).
  - apply (insertIfMissing_merged _ reading3 Hm).
Defined.

Lemma loadFromJSONFiles_ok_witness :
  allLoad sampleFiles (splitSemicolon "u1.json;;u2.json") /\
  (forall x, In x [reading2; reading1] <->
             inSomeFile sampleFiles (splitSemicolon "u1.json;;u2.json") x).
Proof.
  apply (loadFromJSONFiles_ok insertionSort sampleFiles insertionSort_perm).
  reflexivity.
Defined.

Lemma loadFromJSONFiles_error_witness :
  exists before_ f after_,
    splitSemicolon "u1.json;u3.json;u2.json" = before_ ++ f :: after_ /\
    f <> EmptyString /\
    snd (sampleFiles f) = Some (PortError "no such file") /\
    allLoad sampleFiles before_ /\
    (forall x, In x [reading1] <-> inSomeFile sampleFiles before_ x).
Proof.
  apply (loadFromJSONFiles_error insertionSort sampleFiles insertionSort_perm).
  reflexivity.
Defined.

Lemma limitItems_cases_witness :
  limitItems 2 [reading3; reading2; reading1] = Some [reading3; reading2] /\
  limitItems 0 [reading3; reading2; reading1]
    = Some [reading3; reading2; reading1] /\
  limitItems (2 ^ 63) [reading3; reading2; reading1] = None.
Proof.
  split; [|split].
  - apply (limitItems_cases 2 [reading3; reading2; reading1]);
      [reflexivity | simpl; lia].
  - apply (limitItems_cases 0 [reading3; reading2; reading1]);
      [reflexivity | simpl; lia].
  - apply (limitItems_cases (2 ^ 63) [reading3; reading2; reading1]);
      [reflexivity | simpl; lia].
Defined.

Lemma filterItems_merged_witness :
  merged [reading2] /\ incl [reading2] [reading3; reading2; reading1] /\
  (length [reading2] <= length [reading3; reading2; reading1])%nat.
Proof.
  apply (filterItems_merged dateUTC
           (Some (dateUTC 2016 6 2 0 0)) None
           (Some (mkSimpleTime 6 0)) (Some (mkSimpleTime 12 0)) 5
           [reading3; reading2; reading1] [reading2]).
  - split; repeat constructor; simpl; intuition discriminate.
  - reflexivity.
Defined.

Lemma WHOClass_monotone_witness :
  fst (WHOClass reading1) <= fst (WHOClass reading3).
Proof.
  apply WHOClass_monotone; vm_compute; discriminate.
Defined.

Lemma WHOClass_flagged_witness :
  BPMildHypertension <= fst (WHOClass reading3) /\
  fst (WHOClass reading3) = sysGrade (Systolic reading3).
Proof. apply WHOClass_flagged. reflexivity. Defined.

Lemma displayWHOClassStats_rows_witness :
  exists label avg rows,
    @displayWHOClassStats exactFloat64 [reading1; reading2; reading1']
      = Some (label, avg, rows) /\
    length rows = 6%nat /\ rowCounts rows = 3 /\
    Forall (fun row => 0 <= snd row <= 100) rows /\
    95 <= rowPercents rows <= 100.
Proof.
  do 3 eexists. split; [reflexivity|].
  eapply (@displayWHOClassStats_rows exactFloat64
            [reading1; reading2; reading1']); [reflexivity|].
  simpl. lia.
Defined.

Lemma median_order_witness :
  median [reading1; reading2; reading3] = median [reading3; reading1; reading2].
Proof.
  apply median_order.
  apply Permutation_sym, (Permutation_cons_app [reading1; reading2] []).
  rewrite app_nil_r. reflexivity.
Defined.

Lemma median_between_witness :
  120 <= Systolic (fst (median [reading1; reading2; reading3])) <= 185.
Proof.
  apply (median_between [reading1; reading2; reading3] 120 185).
  - discriminate.
  - lia.
  - lia.
  - repeat constructor; vm_compute; discriminate.
Defined.

Lemma median_odd_is_value_witness :
  In (Systolic (fst (median [reading1; reading2; reading3])))
     (map Systolic [reading1; reading2; reading3]).
Proof.
  apply (median_odd_is_value [reading1; reading2; reading3]). reflexivity.
Defined.

Lemma average_order_witness :
  @average exactFloat64 [reading1; reading2] =
  @average exactFloat64 [reading2; reading1].
Proof. apply average_order. apply perm_swap. Defined.

Lemma getData_blocks_witness :
  getData (repeat x00 128) 9
          (mkPort None [RData [x00; x5f; x37]; RData []] allWritesOk 0 [] false)
  = Blocked.
Proof.
  apply getData_blocks.
  - repeat constructor.
  - simpl. lia.
Defined.

Lemma getData_frame_witness :
  0 <= 2 <= Z.of_nat (length (repeat x00 128)) /\
  length (store (repeat x00 128) 0 [x02; x00]) = length (repeat x00 128).
Proof.
  pose proof (getData_frame (repeat x00 128) 1
                (mkPort None [RData [x02; x00]] allWritesOk 3 [] false)
                2 None (store (repeat x00 128) 0 [x02; x00])
                (mkPort None [] allWritesOk 3 [] false) eq_refl) as H.
  split; apply H.
Defined.

Lemma fetchData_handshake_failure_witness :
  fetchData insertionSort
    (mkPort None [RData [x00]; RData sampleDesc] allWritesOk 0 [] false) =
  Done ([], Some errHandshake)
       (mkPort None [RData sampleDesc] allWritesOk 1 [[xaa]] true).
Proof.
  apply (fetchData_handshake_failure insertionSort
           (mkPort None [RData [x00]; RData sampleDesc] allWritesOk 0 [] false)
           [x00] [RData sampleDesc]);
    try reflexivity; discriminate.
Defined.

Lemma fetchData_closes_witness :
  let s' := mkPort None [RData sampleResponse2] fifthWriteFails 5
                   [[xaa]; [xa4]; [xa2]; [xa3; x01]] false in
  fetchData insertionSort (samplePort fifthWriteFails) =
    Done ([reading1], Some (PortError "input/output error")) s' /\
  closed s' = closed (samplePort fifthWriteFails).
Proof.
  intros s'. split; [reflexivity|].
  destruct (fetchData_closes insertionSort (samplePort fifthWriteFails)
              [reading1] (Some (PortError "input/output error")) s' eq_refl)
    as [(E & _)|(_ & C)].
  - discriminate E.
  - exact C.
Defined.

Lemma fetchData_deviceRange_witness :
  Forall deviceRange [reading2; reading1].
Proof.
  apply (fetchData_deviceRange insertionSort (samplePort allWritesOk)
           [reading2; reading1] None
           (mkPort None [] allWritesOk 5
                   [[xaa]; [xa4]; [xa2]; [xa3; x01]; [xa3; x02]] true)).
  - apply insertionSort_perm.
  - reflexivity.
Defined.

Lemma decode_injective_witness :
  [x00; x5f; x37; x3c; x06; x01; x08; x1e; x10] = sampleResponse1.
Proof. apply decode_injective; reflexivity. Defined.

Lemma fetchData_exit_cause_witness :
  exists msg, PortError "device lost" = PortError msg /\
              In (RErr msg) (incoming failingPort).
Proof.
  apply (fetchData_exit_cause insertionSort failingPort). reflexivity.
Defined.
